(** * MERN blog: session reducer and post/category/comment route handlers

    A shallow embedding of
    - [client/src/context/AuthContext.js] (the [authReducer], the initial
      state handed to [useReducer] and the operations of [AuthProvider]),
      [client/src/hooks/useApi.js] and the comment form of
      [client/src/components/PostDetail.js],
    - [server/routes/posts.js] and [server/routes/categories.js] (the
      handlers of all their routes and the order of the post routes),
    followed by the properties of the consistency rules between posts,
    categories and comments, and of the session on the client.

    Documents are kept in finite maps keyed by their [_id]; a handler is a
    function from the store and the request to a response and the next
    store.  The Mongoose models and the [auth] middleware are not part of
    the sources at hand: store operations are total here (an exception
    thrown by the store layer, which the handlers forward to [next(err)],
    is outside the model), and identifiers stand for well-formed ObjectId
    strings. *)

From Stdlib Require Import ZArith Ascii String.
From stdpp Require Import gmap strings list fin_maps.

Local Open Scope string_scope.
Local Open Scope list_scope.

(** ** Client: [AuthContext.js] *)

Module Client.

(** The user object the auth service hands to the client. *)
Record ClientUser := {
  cu_id : string;
  cu_name : string;
  cu_email : string;
  cu_role : string
}.

(** The JavaScript values that flow through [action.payload] and the
    [user] and [error] fields of the session state. *)
Inductive JsVal :=
| JNull
| JUndefined
| JStr (s : string)
| JUser (u : ClientUser).

Record AuthState := {
  loading : bool;
  isAuthenticated : bool;
  user : JsVal;
  error : JsVal
}.

Record Action := {
  type : string;
  payload : JsVal
}.

(** [const authReducer = (state, action) => { switch (action.type) ... }] *)
Definition authReducer (state : AuthState) (action : Action) : AuthState :=
  if String.eqb (type action) "LOGIN_START" then
    {| loading := true;
       isAuthenticated := isAuthenticated state;
       user := user state;
       error := error state |}
  else if String.eqb (type action) "LOGIN_SUCCESS" then
    {| loading := false;
       isAuthenticated := true;
       user := payload action;
       error := error state |}
  else if String.eqb (type action) "LOGIN_FAIL" then
    {| loading := false;
       isAuthenticated := false;
       user := JNull;
       error := payload action |}
  else if String.eqb (type action) "LOGOUT" then
    {| loading := false;
       isAuthenticated := false;
       user := JNull;
       error := error state |}
  else if String.eqb (type action) "CLEAR_ERROR" then
    {| loading := loading state;
       isAuthenticated := isAuthenticated state;
       user := user state;
       error := JNull |}
  else state.

(** The second argument of [useReducer] in [AuthProvider]. *)
Definition initialState : AuthState :=
  {| loading := false; isAuthenticated := false; user := JNull; error := JNull |}.

(** The state after dispatching a sequence of actions, oldest first. *)
Definition dispatchAll (actions : list Action) (state : AuthState) : AuthState :=
  fold_left authReducer actions state.

(** The names the reducer's [switch] has a [case] for. *)
Definition knownTypes : list string :=
  ["LOGIN_START"; "LOGIN_SUCCESS"; "LOGIN_FAIL"; "LOGOUT"; "CLEAR_ERROR"].

(** Every [LOGIN_SUCCESS] of the sequence carries a payload other than [null]. *)
Definition successPayloadsNonNull (actions : list Action) : Prop :=
  Forall (fun a => type a = "LOGIN_SUCCESS" -> payload a <> JNull) actions.

(** The flag and the user agree. *)
Definition consistent (s : AuthState) : Prop :=
  isAuthenticated s = true <-> user s <> JNull.

(** [v == null]: the value is [null] or [undefined]. *)
Definition nullish (v : JsVal) : bool :=
  match v with
  | JNull | JUndefined => true
  | _ => false
  end.

End Client.

(** ** Regular expressions of the search route

    [GET /api/posts/search] hands the query string to the store as a
    regular expression ([$regex: q], [new RegExp(q, 'i')]).  The model
    covers the patterns made of ordinary characters and of [.]; a query
    that uses any other regular-expression syntax is outside it. *)

Module Regex.

Inductive Atom :=
| Lit (c : ascii)
| AnyChar.

(** The characters with a meaning of their own in a pattern. *)
Definition metachars : list ascii :=
  list_ascii_of_string "\^$.|?*+()[]{}".

Definition isMeta (c : ascii) : bool := bool_decide (c ∈ metachars).

Definition dot : ascii := "."%char.
Definition newline : ascii := ascii_of_nat 10.

(** [None]: the pattern is outside the modelled fragment. *)
Fixpoint compile (q : list ascii) : option (list Atom) :=
  match q with
  | [] => Some []
  | c :: q' =>
      if Ascii.eqb c dot then (AnyChar ::.) <$> compile q'
      else if isMeta c then None
      else (Lit c ::.) <$> compile q'
  end.

(** Case folding of option [i] on ASCII text: the letters A-Z are mapped to
    a-z.  The letters outside ASCII, which the option folds too, are outside
    the model. *)
Definition toLower (c : ascii) : ascii :=
  let n := nat_of_ascii c in
  if (65 <=? n)%nat && (n <=? 90)%nat then ascii_of_nat (n + 32) else c.

Definition matchAtom (a : Atom) (c : ascii) : bool :=
  match a with
  | Lit l => Ascii.eqb (toLower l) (toLower c)
  | AnyChar => negb (Ascii.eqb c newline)
  end.

(** The pattern matches a prefix of the subject. *)
Fixpoint matchHere (p : list Atom) (s : list ascii) : bool :=
  match p, s with
  | [], _ => true
  | _ :: _, [] => false
  | a :: p', c :: s' => matchAtom a c && matchHere p' s'
  end.

(** The pattern is not anchored: it matches at some position of the subject. *)
Fixpoint matchAnywhere (p : list Atom) (s : list ascii) : bool :=
  matchHere p s ||
  match s with
  | [] => false
  | _ :: s' => matchAnywhere p s'
  end.

(** [new RegExp(q, 'i').test(s)] *)
Definition test (p : list Atom) (s : string) : bool :=
  matchAnywhere p (list_ascii_of_string s).

(** The query has no character with a regular-expression meaning. *)
Definition isLiteral (q : string) : bool :=
  forallb (fun c => negb (isMeta c)) (list_ascii_of_string q).

(** The reading of the search route in words: [q] occurs in [s] as a
    substring, letter case ignored. *)
Definition ciSubstring (q s : string) : Prop :=
  exists pre suf : list ascii,
    toLower <$> list_ascii_of_string s
    = pre ++ (toLower <$> list_ascii_of_string q) ++ suf.

End Regex.

(** ** Server: documents, store, middleware and handlers *)

Module Server.

(** An [_id]: the hexadecimal string of an ObjectId. *)
Abbreviation Id := string.

Inductive Role := RoleAdmin | RoleUser.

#[export] Instance role_eq_dec : EqDecision Role.
Proof. solve_decision. Defined.

Module User.
Record t := { name : string; email : string; avatar : string; role : Role }.
End User.

Module Category.
Record t := { name : string; slug : string; description : string; postCount : Z }.

Definition setPostCount (n : Z) (c : t) : t :=
  {| name := name c; slug := slug c; description := description c; postCount := n |}.
End Category.

Module Comment.
(** [user] is a reference to a user document. *)
Record t := { content : string; user : Id }.
End Comment.

Module Post.
Record t := {
  title : string;
  content : string;
  tags : list string;
  category : Id;
  author : Id;
  viewCount : Z;
  comments : list Comment.t
}.

Definition setComments (cs : list Comment.t) (p : t) : t :=
  {| title := title p; content := content p; tags := tags p;
     category := category p; author := author p;
     viewCount := viewCount p; comments := cs |}.
End Post.

(** The three collections of the document store. *)
Record Db := {
  users : gmap string User.t;
  categories : gmap string Category.t;
  posts : gmap string Post.t
}.

Definition setCategories (cs : gmap string Category.t) (db : Db) : Db :=
  {| users := users db; categories := cs; posts := posts db |}.

Definition setPosts (ps : gmap string Post.t) (db : Db) : Db :=
  {| users := users db; categories := categories db; posts := ps |}.

(** *** Request bodies *)

(** The fields of [req.body] on the post routes; [None] is an absent field. *)
Record PostBody := {
  b_title : option string;
  b_content : option string;
  b_category : option Id;
  b_tags : option (list string)
}.

(** *** Responses *)

(** A referenced user as [populate] fills it in. *)
Record UserView := { uv_id : Id; uv_name : string; uv_contact : string }.

Record CategoryView := { cv_id : Id; cv_name : string; cv_slug : string }.

(** A comment after [populate('comments.user', 'name avatar')]; the
    reference of a user that is no longer stored becomes [null]. *)
Record CommentView := { cm_content : string; cm_user : option UserView }.

(** A post after [populate('author', 'name email')] and
    [populate('category', 'name slug')]. *)
Record PostView := {
  pv_id : Id;
  pv_post : Post.t;
  pv_author : option UserView;
  pv_category : option CategoryView
}.

Inductive Data :=
| DEmpty
| DPost (id : Id) (p : Post.t)
| DPosts (count : nat) (ps : list PostView)
| DComment (c : option CommentView).

Inductive Body :=
| Success (data : Data)
| Failure (error : string)
| Invalid (errors : list string).

Record Response := { status : Z; body : Body }.

Definition success (r : Response) : bool :=
  match body r with Success _ => true | _ => false end.

Definition fail (code : Z) (msg : string) : Response :=
  {| status := code; body := Failure msg |}.

Definition ok (code : Z) (d : Data) : Response :=
  {| status := code; body := Success d |}.

(** *** Early return

    [inl r]: the chain has sent the response [r] and stops;
    [inr a]: it goes on with [a]. *)
Definition Step (A : Type) : Type := Response + A.

#[export] Instance step_ret : MRet Step := fun _ a => inr a.

#[export] Instance step_bind : MBind Step := fun _ _ f m =>
  match m with
  | inl r => inl r
  | inr a => f a
  end.

(** [if (!x) return res...] *)
Definition orElse {A} (r : Response) (x : option A) : Step A :=
  match x with
  | Some a => inr a
  | None => inl r
  end.

(** [if (cond) return res...] *)
Definition when (cond : bool) (r : Response) : Step unit :=
  if cond then inl r else inr tt.

(** A chain that stopped early leaves the store as it was. *)
Definition run (db : Db) (m : Step (Response * Db)) : Response * Db :=
  match m with
  | inl r => (r, db)
  | inr out => out
  end.

(** *** Middleware *)

(** Modelled from the spec: [middleware/auth.js] is not among the sources.
    "Caller must present a valid session identity (protect)"; it "fails
    with Unauthenticated", which the error taxonomy maps to 401.  The
    credential of a request is the id its session token resolves to, if
    any; [req.user] is the stored document of that id. *)
Definition protect (db : Db) (cred : option Id) : Step (Id * User.t) :=
  orElse (fail 401 "Unauthenticated")
         (uid ← cred; u ← users db !! uid; Some (uid, u)).

(** Modelled from the spec: [middleware/auth.js] is not among the sources.
    "For admin-restricted operations, caller's role must equal admin
    (authorize)"; it "fails with Forbidden", which the error taxonomy maps
    to 401. *)
Definition authorize (required : Role) (u : User.t) : Step unit :=
  when (negb (bool_decide (User.role u = required))) (fail 401 "Forbidden").

(** [body(field).notEmpty()] of express-validator: an absent field counts
    as the empty string. *)
Definition notEmpty (v : option string) : bool :=
  match v with
  | Some s => negb (String.eqb s EmptyString)
  | None => false
  end.

(** [validationResult(req).array()]: the messages of the failed rules, in
    the order of the rules. *)
Definition validationErrors (rules : list (option string * string)) : list string :=
  snd <$> List.filter (fun r => negb (notEmpty (fst r))) rules.

(** *** The store as the handlers use it *)

(** [Post.find(filter)]: the stored posts that satisfy the filter. *)
Definition findPosts (P : Post.t -> bool) (db : Db) : list (Id * Post.t) :=
  List.filter (fun kp => P (snd kp)) (map_to_list (posts db)).

Definition viewUser (contact : User.t -> string) (db : Db) (uid : Id) : option UserView :=
  u ← users db !! uid;
  Some {| uv_id := uid; uv_name := User.name u; uv_contact := contact u |}.

Definition viewCategory (db : Db) (cid : Id) : option CategoryView :=
  c ← categories db !! cid;
  Some {| cv_id := cid; cv_name := Category.name c; cv_slug := Category.slug c |}.

(** [.populate('author', 'name email').populate('category', 'name slug')] *)
Definition populatePost (db : Db) (kp : Id * Post.t) : PostView :=
  {| pv_id := fst kp;
     pv_post := snd kp;
     pv_author := viewUser User.email db (Post.author (snd kp));
     pv_category := viewCategory db (Post.category (snd kp)) |}.

(** [.populate({ path: 'comments', populate: { path: 'user', select: 'name avatar' } })] *)
Definition populateComment (db : Db) (c : Comment.t) : CommentView :=
  {| cm_content := Comment.content c;
     cm_user := viewUser User.avatar db (Comment.user c) |}.

(** The patch of [findByIdAndUpdate(id, req.body)]: the fields present in
    the body replace those of the document. *)
Definition applyBody (b : PostBody) (p : Post.t) : Post.t :=
  {| Post.title := default (Post.title p) (b_title b);
     Post.content := default (Post.content p) (b_content b);
     Post.tags := default (Post.tags p) (b_tags b);
     Post.category := default (Post.category p) (b_category b);
     Post.author := Post.author p;
     Post.viewCount := Post.viewCount p;
     Post.comments := Post.comments p |}.

(** *** [routes/posts.js]

    Each route is its middleware chain followed by its handler; the
    handler is given [req.user] as the pair of the caller's id and
    document. *)

(** The handler of [router.post('/', ...)]; [newId] is the [_id] the store
    gives to the created document. *)
Definition createHandler (db : Db) (uid : Id) (newId : Id) (b : PostBody)
  : Step (Response * Db) :=
  let errors := validationErrors
    [ (b_title b, "Please provide a title");
      (b_content b, "Please provide content");
      (b_category b, "Please provide a category") ] in
  _ ← when (negb (bool_decide (errors = [])))
           {| status := 400; body := Invalid errors |};
  let cid := default EmptyString (b_category b) in
  category ← orElse (fail 400 "Category not found") (categories db !! cid);
  let post :=
    {| Post.title := default EmptyString (b_title b);
       Post.content := default EmptyString (b_content b);
       Post.tags := default [] (b_tags b);
       Post.category := cid;
       Post.author := uid;
       Post.viewCount := 0;
       Post.comments := [] |} in
  let db1 := setPosts (<[newId := post]> (posts db)) db in
  let category' :=
    Category.setPostCount (Category.postCount category + 1)%Z category in
  let db2 := setCategories (<[cid := category']> (categories db1)) db1 in
  mret (ok 201 (DPost newId post), db2).

(** [router.post('/', [protect, authorize('admin')], [...], handler)] *)
Definition createPost (db : Db) (cred : option Id) (newId : Id) (b : PostBody)
  : Response * Db :=
  run db (
    '(uid, u) ← protect db cred;
    _ ← authorize RoleAdmin u;
    createHandler db uid newId b).

(** [post.author.toString() !== req.user.id && req.user.role !== 'admin'] *)
Definition notOwnerNorAdmin (uid : Id) (u : User.t) (post : Post.t) : bool :=
  negb (String.eqb (Post.author post) uid)
  && negb (bool_decide (User.role u = RoleAdmin)).

(** The handler of [router.put('/:id', ...)]. *)
Definition updateHandler (db : Db) (uid : Id) (u : User.t) (id : Id) (b : PostBody)
  : Step (Response * Db) :=
  post ← orElse (fail 404 "Post not found") (posts db !! id);
  _ ← when (notOwnerNorAdmin uid u post)
           (fail 401 "Not authorized to update this post");
  let post' := applyBody b post in
  mret (ok 200 (DPost id post'), setPosts (<[id := post']> (posts db)) db).

(** [router.put('/:id', [protect, authorize('admin')], handler)] *)
Definition updatePost (db : Db) (cred : option Id) (id : Id) (b : PostBody)
  : Response * Db :=
  run db (
    '(uid, u) ← protect db cred;
    _ ← authorize RoleAdmin u;
    updateHandler db uid u id b).

(** [category.postCount -= 1; if (category.postCount < 0) category.postCount = 0;] *)
Definition decrementCount (c : Category.t) : Category.t :=
  let n := (Category.postCount c - 1)%Z in
  Category.setPostCount (if (n <? 0)%Z then 0%Z else n) c.

(** The handler of [router.delete('/:id', ...)]. *)
Definition deleteHandler (db : Db) (uid : Id) (u : User.t) (id : Id)
  : Step (Response * Db) :=
  post ← orElse (fail 404 "Post not found") (posts db !! id);
  _ ← when (notOwnerNorAdmin uid u post)
           (fail 401 "Not authorized to delete this post");
  let db1 := setPosts (delete id (posts db)) db in
  let db2 :=
    match categories db1 !! Post.category post with
    | Some category =>
        setCategories
          (<[Post.category post := decrementCount category]> (categories db1)) db1
    | None => db1
    end in
  mret (ok 200 DEmpty, db2).

(** [router.delete('/:id', [protect, authorize('admin')], handler)] *)
Definition deletePost (db : Db) (cred : option Id) (id : Id) : Response * Db :=
  run db (
    '(uid, u) ← protect db cred;
    _ ← authorize RoleAdmin u;
    deleteHandler db uid u id).

(** The handler of [router.post('/:id/comments', ...)]. *)
Definition commentHandler (db : Db) (uid : Id) (id : Id) (content : option string)
  : Step (Response * Db) :=
  let errors := validationErrors [ (content, "Please provide comment content") ] in
  _ ← when (negb (bool_decide (errors = [])))
           {| status := 400; body := Invalid errors |};
  post ← orElse (fail 404 "Post not found") (posts db !! id);
  let comment := {| Comment.content := default EmptyString content; Comment.user := uid |} in
  let post' := Post.setComments (Post.comments post ++ [comment]) post in
  let db1 := setPosts (<[id := post']> (posts db)) db in
  let populated :=
    match posts db1 !! id with
    | Some p => populateComment db1 <$> Post.comments p
    | None => []
    end in
  mret (ok 201 (DComment (last populated)), db1).

(** [router.post('/:id/comments', [protect], [...], handler)] *)
Definition addComment (db : Db) (cred : option Id) (id : Id) (content : option string)
  : Response * Db :=
  run db (
    '(uid, u) ← protect db cred;
    commentHandler db uid id content).

(** The filter of the search: [$or] of a match on the title, on the
    content, and on some element of the tags. *)
Definition searchFilter (p : list Regex.Atom) (post : Post.t) : bool :=
  Regex.test p (Post.title post)
  || Regex.test p (Post.content post)
  || existsb (Regex.test p) (Post.tags post).

(** The handler of [router.get('/search', ...)]; [q] is [req.query.q].  The
    result is [None] when the query is outside the modelled patterns. *)
Definition searchPosts (db : Db) (q : option string) : option Response :=
  match q with
  | None | Some EmptyString => Some (fail 400 "Please provide a search query")
  | Some q =>
      p ← Regex.compile (list_ascii_of_string q);
      let found := populatePost db <$> findPosts (searchFilter p) db in
      Some (ok 200 (DPosts (length found) found))
  end.

(** *** [routes/categories.js] *)

(** The handler of [router.delete('/:id', ...)]. *)
Definition deleteCategoryHandler (db : Db) (id : Id) : Step (Response * Db) :=
  category ← orElse (fail 404 "Category not found") (categories db !! id);
  let found := findPosts (fun p => String.eqb (Post.category p) id) db in
  _ ← when (0 <? length found)%nat
           (fail 400 "Cannot delete category with existing posts");
  mret (ok 200 DEmpty, setCategories (delete id (categories db)) db).

(** [router.delete('/:id', [protect, authorize('admin')], handler)] *)
Definition deleteCategory (db : Db) (cred : option Id) (id : Id) : Response * Db :=
  run db (
    '(uid, u) ← protect db cred;
    _ ← authorize RoleAdmin u;
    deleteCategoryHandler db id).

(** *** Vocabulary of the properties *)

(** The request is made by the stored user [u] of id [uid]. *)
Definition authenticatedAs (db : Db) (cred : option Id) (uid : Id) (u : User.t) : Prop :=
  cred = Some uid /\ users db !! uid = Some u.

(** The store after the removal of the post [id] and the adjustment of the
    counter of its category. *)
Definition afterDelete (db : Db) (id : Id) (post : Post.t) : Db :=
  let db1 := setPosts (delete id (posts db)) db in
  match categories db !! Post.category post with
  | Some c =>
      setCategories (<[Post.category post := decrementCount c]> (categories db)) db1
  | None => db1
  end.

(** Some stored post refers to the category [cid]. *)
Definition referenced (db : Db) (cid : Id) : Prop :=
  exists pid post, posts db !! pid = Some post /\ Post.category post = cid.

(** The views [found] of a response contain the stored post [id]. *)
Definition returns (found : list PostView) (id : Id) (post : Post.t) : Prop :=
  exists v, v ∈ found /\ pv_id v = id /\ pv_post v = post.

(** The words of the search rule: the query occurs, letter case ignored,
    in the title, in the content or in one of the tags. *)
Definition occursIn (q : string) (post : Post.t) : Prop :=
  Regex.ciSubstring q (Post.title post)
  \/ Regex.ciSubstring q (Post.content post)
  \/ exists t, t ∈ Post.tags post /\ Regex.ciSubstring q t.

End Server.

(** ** A small blog used by the examples *)

Module Fixture.
Import Server.

Definition alice : Id := "64b000000000000000000001".
Definition bob : Id := "64b000000000000000000002".
Definition carol : Id := "64b000000000000000000003".
Definition tech : Id := "64c000000000000000000001".
Definition travel : Id := "64c000000000000000000002".
Definition gone : Id := "64c0000000000000000000ff".
Definition hello : Id := "64d000000000000000000001".
Definition fresh : Id := "64d000000000000000000002".

Definition aliceDoc : User.t :=
  {| User.name := "Alice"; User.email := "alice@example.org";
     User.avatar := "alice.png"; User.role := RoleAdmin |}.

Definition bobDoc : User.t :=
  {| User.name := "Bob"; User.email := "bob@example.org";
     User.avatar := "bob.png"; User.role := RoleUser |}.

Definition carolDoc : User.t :=
  {| User.name := "Carol"; User.email := "carol@example.org";
     User.avatar := "carol.png"; User.role := RoleUser |}.

Definition techDoc : Category.t :=
  {| Category.name := "Tech"; Category.slug := "tech";
     Category.description := "Technology"; Category.postCount := 1 |}.

Definition travelDoc : Category.t :=
  {| Category.name := "Travel"; Category.slug := "travel";
     Category.description := "Journeys"; Category.postCount := 0 |}.

Definition firstComment : Comment.t :=
  {| Comment.content := "Nice"; Comment.user := carol |}.

(** A post written by Bob, who is not an admin. *)
Definition helloDoc : Post.t :=
  {| Post.title := "Hello World"; Post.content := "First post";
     Post.tags := ["Intro"]; Post.category := tech; Post.author := bob;
     Post.viewCount := 0; Post.comments := [firstComment] |}.

Definition theUsers : gmap string User.t :=
  <[alice := aliceDoc]> (<[bob := bobDoc]> (<[carol := carolDoc]> ∅)).

Definition db : Db :=
  {| users := theUsers;
     categories := <[tech := techDoc]> (<[travel := travelDoc]> ∅);
     posts := <[hello := helloDoc]> ∅ |}.

Definition newTitle : PostBody :=
  {| b_title := Some "Hello again"; b_content := None;
     b_category := None; b_tags := None |}.

Definition draft (cid : Id) : PostBody :=
  {| b_title := Some "A"; b_content := Some "B";
     b_category := Some cid; b_tags := None |}.

Definition moveTo (cid : Id) : PostBody :=
  {| b_title := None; b_content := None; b_category := Some cid; b_tags := None |}.

(** The blog before any post: two empty categories. *)
Definition emptyBlog : Db :=
  {| users := theUsers;
     categories :=
       <[tech := Category.setPostCount 0 techDoc]> (<[travel := travelDoc]> ∅);
     posts := ∅ |}.

(** Alice has created a post in Tech. *)
Definition posted : Db :=
  snd (createPost emptyBlog (Some alice) hello (draft tech)).

(** Alice has then moved it to Travel. *)
Definition moved : Db :=
  snd (updatePost posted (Some alice) hello (moveTo travel)).

(** The post of [hello] is the only post of a category that is no longer stored. *)
Definition orphaned : Db :=
  {| users := theUsers;
     categories := <[travel := travelDoc]> ∅;
     posts := <[hello := helloDoc]> ∅ |}.

Definition login (u : Client.ClientUser) : Client.Action :=
  {| Client.type := "LOGIN_SUCCESS"; Client.payload := Client.JUser u |}.

Definition clientBob : Client.ClientUser :=
  {| Client.cu_id := bob; Client.cu_name := "Bob";
     Client.cu_email := "bob@example.org"; Client.cu_role := "user" |}.

End Fixture.

(** ** Server: the reading routes, the category routes and the router *)

Module Routes.
Import Server.

(** What a route answers: [inl r] is an error response, [inr (code, data)]
    the response [{ success: true, data }] with status [code]. *)
Definition Answer (A : Type) : Type := Step (Z * A).

(** A chain that stopped early leaves the store as it was. *)
Definition commit {A} (db : Db) (m : Step (Z * A * Db)) : Answer A * Db :=
  match m with
  | inl r => (inl r, db)
  | inr (code, a, db') => (inr (code, a), db')
  end.

(** [routes/posts.js]: the handler of [router.get('/', ...)];
    [count] is [posts.length]. *)
Definition getPosts (db : Db) : Answer (nat * list PostView) :=
  let posts := populatePost db <$> findPosts (fun _ => true) db in
  inr (200%Z, (length posts, posts)).

(** An author after [populate('author', 'name email avatar')]. *)
Record AuthorView := {
  av_id : Id;
  av_name : string;
  av_email : string;
  av_avatar : string
}.

Definition viewAuthor (db : Db) (uid : Id) : option AuthorView :=
  u ← users db !! uid;
  Some {| av_id := uid; av_name := User.name u;
          av_email := User.email u; av_avatar := User.avatar u |}.

(** A post as [GET /api/posts/:id] sends it. *)
Record PostDetail := {
  pd_id : Id;
  pd_post : Post.t;
  pd_author : option AuthorView;
  pd_category : option CategoryView;
  pd_comments : list CommentView
}.

(** [routes/posts.js]: the handler of [router.get('/:id', ...)]. *)
Definition getPost (db : Db) (id : Id) : Answer PostDetail :=
  post ← orElse (fail 404 "Post not found") (posts db !! id);
  mret (200%Z,
        {| pd_id := id;
           pd_post := post;
           pd_author := viewAuthor db (Post.author post);
           pd_category := viewCategory db (Post.category post);
           pd_comments := populateComment db <$> Post.comments post |}).

(** *** [routes/categories.js] *)

(** The fields of [req.body] on the category routes. *)
Record CategoryBody := {
  cb_name : option string;
  cb_slug : option string;
  cb_description : option string;
  cb_postCount : option Z
}.

(** The handler of [router.get('/', ...)]. *)
Definition getCategories (db : Db) : Answer (nat * list (Id * Category.t)) :=
  let categories := map_to_list (categories db) in
  inr (200%Z, (length categories, categories)).

(** The handler of [router.get('/:id', ...)]. *)
Definition getCategory (db : Db) (id : Id) : Answer (Id * Category.t) :=
  category ← orElse (fail 404 "Category not found") (categories db !! id);
  mret (200%Z, (id, category)).

(** The rules of [router.post('/', ...)]: [body('name').notEmpty()] and
    [body('description').optional().isLength({ max: 200 })]; an absent
    description is not checked.  [len] is the length of a text as
    [isLength] of validator.js counts it, in characters; the library is not
    among the sources. *)
Definition categoryErrors (len : string -> nat) (b : CategoryBody) : list string :=
  (if notEmpty (cb_name b) then [] else ["Please provide a category name"])
  ++ match cb_description b with
     | Some d =>
         if (len d <=? 200)%nat then []
         else ["Description cannot be more than 200 characters"]
     | None => []
     end.

(** The handler of [router.post('/', ...)].  [build] is the document that
    [Category.create(req.body)] makes of the body (the defaults and hooks of
    the schema are in [models/Category.js], which is not among the sources)
    and [newId] the [_id] the store gives it. *)
Definition createCategoryHandler (len : string -> nat)
    (build : CategoryBody -> Category.t)
    (db : Db) (newId : Id) (b : CategoryBody)
  : Step (Z * (Id * Category.t) * Db) :=
  let errors := categoryErrors len b in
  _ ← when (negb (bool_decide (errors = [])))
           {| status := 400; body := Invalid errors |};
  let category := build b in
  mret (201%Z, (newId, category),
        setCategories (<[newId := category]> (categories db)) db).

(** [router.post('/', [protect, authorize('admin')], [...], handler)] *)
Definition createCategory (len : string -> nat)
    (build : CategoryBody -> Category.t)
    (db : Db) (cred : option Id) (newId : Id) (b : CategoryBody)
  : Answer (Id * Category.t) * Db :=
  commit db (
    '(uid, u) ← protect db cred;
    _ ← authorize RoleAdmin u;
    createCategoryHandler len build db newId b).

(** The characters of a text in UTF-8: its bytes other than the
    continuation bytes [10xxxxxx]. *)
Definition characters (s : string) : nat :=
  length (List.filter
            (fun c => negb ((128 <=? nat_of_ascii c)%nat && (nat_of_ascii c <? 192)%nat))
            (list_ascii_of_string s)).

(** The patch of [findByIdAndUpdate(id, req.body)] on a category. *)
Definition applyCategoryBody (b : CategoryBody) (c : Category.t) : Category.t :=
  {| Category.name := default (Category.name c) (cb_name b);
     Category.slug := default (Category.slug c) (cb_slug b);
     Category.description := default (Category.description c) (cb_description b);
     Category.postCount := default (Category.postCount c) (cb_postCount b) |}.

(** The handler of [router.put('/:id', ...)]. *)
Definition updateCategoryHandler (db : Db) (id : Id) (b : CategoryBody)
  : Step (Z * (Id * Category.t) * Db) :=
  category ← orElse (fail 404 "Category not found")
                    (applyCategoryBody b <$> categories db !! id);
  mret (200%Z, (id, category),
        setCategories (<[id := category]> (categories db)) db).

(** [router.put('/:id', [protect, authorize('admin')], handler)] *)
Definition updateCategory (db : Db) (cred : option Id) (id : Id) (b : CategoryBody)
  : Answer (Id * Category.t) * Db :=
  commit db (
    '(uid, u) ← protect db cred;
    _ ← authorize RoleAdmin u;
    updateCategoryHandler db id b).

(** *** The router of [routes/posts.js]

    The routes in the order of their registration.  A request goes to the
    first route whose method and path match; none of the handlers passes the
    request on to a later route. *)

Inductive Method := GET | POST | PUT | DELETE.

#[export] Instance method_eq_dec : EqDecision Method.
Proof. solve_decision. Defined.

(** A segment of a route path: a fixed word or a parameter such as [:id]. *)
Inductive Segment :=
| Word (w : string)
| Param (name : string).

Inductive PostRoute :=
| ListPosts
| GetPost
| CreatePost
| UpdatePost
| DeletePost
| AddComment
| SearchPosts.

Definition postsRouter : list (Method * list Segment * PostRoute) :=
  [ (GET, [], ListPosts);
    (GET, [Param "id"], GetPost);
    (POST, [], CreatePost);
    (PUT, [Param "id"], UpdatePost);
    (DELETE, [Param "id"], DeletePost);
    (POST, [Param "id"; Word "comments"], AddComment);
    (GET, [Word "search"], SearchPosts) ].

Definition lowerCase (s : string) : list ascii :=
  Regex.toLower <$> list_ascii_of_string s.

(** The letters a-z put in upper case, every other character as it is. *)
Definition toUpper (c : ascii) : ascii :=
  let n := nat_of_ascii c in
  if (97 <=? n)%nat && (n <=? 122)%nat then ascii_of_nat (n - 32) else c.

(** Two texts that differ in the case of their ASCII letters at most. *)
Definition sameLetters (q1 q2 : string) : Prop :=
  toUpper <$> list_ascii_of_string q1 = toUpper <$> list_ascii_of_string q2.

(** The query is one of the modelled patterns: ordinary characters and [.]. *)
Definition modelled (q : string) : Prop :=
  is_Some (Regex.compile (list_ascii_of_string q)).

(** A word matches its segment whatever the letter case; a parameter
    matches every segment that is not empty. *)
Definition matchSegment (p : Segment) (s : string) : bool :=
  match p with
  | Word w => bool_decide (lowerCase w = lowerCase s)
  | Param _ => negb (String.eqb s EmptyString)
  end.

Fixpoint matchPath (pattern : list Segment) (path : list string) : bool :=
  match pattern, path with
  | [], [] => true
  | p :: pattern', s :: path' => matchSegment p s && matchPath pattern' path'
  | _, _ => false
  end.

Fixpoint dispatchIn (routes : list (Method * list Segment * PostRoute))
    (m : Method) (path : list string) : option PostRoute :=
  match routes with
  | [] => None
  | (m', pattern, route) :: routes' =>
      if bool_decide (m' = m) && matchPath pattern path then Some route
      else dispatchIn routes' m path
  end.

(** The route that handles the request [m path], the path given by its
    segments under [/api/posts]. *)
Definition dispatch (m : Method) (path : list string) : option PostRoute :=
  dispatchIn postsRouter m path.

(** *** Requests in sequence *)

Inductive Request :=
| ReqCreatePost (cred : option Id) (newId : Id) (b : PostBody)
| ReqUpdatePost (cred : option Id) (id : Id) (b : PostBody)
| ReqDeletePost (cred : option Id) (id : Id)
| ReqAddComment (cred : option Id) (id : Id) (content : option string)
| ReqDeleteCategory (cred : option Id) (id : Id).

(** The store after a request. *)
Definition handle (db : Db) (req : Request) : Db :=
  match req with
  | ReqCreatePost cred newId b => snd (createPost db cred newId b)
  | ReqUpdatePost cred id b => snd (updatePost db cred id b)
  | ReqDeletePost cred id => snd (deletePost db cred id)
  | ReqAddComment cred id content => snd (addComment db cred id content)
  | ReqDeleteCategory cred id => snd (deleteCategory db cred id)
  end.

Definition handleAll (reqs : list Request) (db : Db) : Db :=
  fold_left handle reqs db.

(** The response to a request. *)
Definition reply (db : Db) (req : Request) : Response :=
  match req with
  | ReqCreatePost cred newId b => fst (createPost db cred newId b)
  | ReqUpdatePost cred id b => fst (updatePost db cred id b)
  | ReqDeletePost cred id => fst (deletePost db cred id)
  | ReqAddComment cred id content => fst (addComment db cred id content)
  | ReqDeleteCategory cred id => fst (deleteCategory db cred id)
  end.

(** *** Vocabulary of the counters *)

(** The number of stored posts that refer to the category [cid]. *)
Definition countRefs (db : Db) (cid : Id) : nat :=
  length (findPosts (fun p => String.eqb (Post.category p) cid) db).

(** Every stored category counts the posts that refer to it. *)
Definition countsAgree (db : Db) : Prop :=
  forall cid c, categories db !! cid = Some c ->
    Category.postCount c = Z.of_nat (countRefs db cid).

(** No stored category has a negative counter. *)
Definition countsNonNegative (db : Db) : Prop :=
  forall cid c, categories db !! cid = Some c -> (0 <= Category.postCount c)%Z.

(** A creation gets an id that no stored post has; an update leaves the
    post in its category. *)
Definition keepsCount (db : Db) (req : Request) : Prop :=
  match req with
  | ReqCreatePost _ newId _ => posts db !! newId = None
  | ReqUpdatePost _ id b =>
      forall post, posts db !! id = Some post ->
        default (Post.category post) (b_category b) = Post.category post
  | _ => True
  end.

(** Every stored post refers to a stored category. *)
Definition referencesResolve (db : Db) : Prop :=
  forall id post, posts db !! id = Some post ->
    is_Some (categories db !! Post.category post).

(** An update leaves the post in its category. *)
Definition keepsCategory (db : Db) (req : Request) : Prop :=
  match req with
  | ReqUpdatePost _ id b =>
      forall post, posts db !! id = Some post ->
        default (Post.category post) (b_category b) = Post.category post
  | _ => True
  end.

Fixpoint keepCategories (db : Db) (reqs : list Request) : Prop :=
  match reqs with
  | [] => True
  | req :: reqs' => keepsCategory db req /\ keepCategories (handle db req) reqs'
  end.

(** A category document as a body makes it, for the examples: name and
    description of the body, no post yet. *)
Definition plainCategory (b : CategoryBody) : Category.t :=
  {| Category.name := default EmptyString (cb_name b);
     Category.slug := default EmptyString (cb_name b);
     Category.description := default EmptyString (cb_description b);
     Category.postCount := 0 |}.

Definition named (name : string) (description : option string) : CategoryBody :=
  {| cb_name := Some name; cb_slug := None;
     cb_description := description; cb_postCount := None |}.

(** A text of 201 characters. *)
Definition longText : string := string_of_list_ascii (repeat "a"%char 201).

Fixpoint keepCounts (db : Db) (reqs : list Request) : Prop :=
  match reqs with
  | [] => True
  | req :: reqs' => keepsCount db req /\ keepCounts (handle db req) reqs'
  end.

End Routes.

(** ** Client: the operations of [AuthProvider], [useApi] and the comment form *)

Module Provider.
Import Client.

(** The truth value of a JavaScript value in a condition. *)
Definition truthy (v : JsVal) : bool :=
  match v with
  | JNull | JUndefined => false
  | JStr s => negb (String.eqb s EmptyString)
  | JUser _ => true
  end.

(** [a || b] *)
Definition orJs (a b : JsVal) : JsVal := if truthy a then a else b.

(** How a call of the auth service settles: it resolves with [data.user],
    or rejects with an error, of which [responseError] is
    [error.response?.data?.error] and [message] is [error.message]. *)
Inductive Settled :=
| Resolved (user : JsVal)
| Rejected (responseError message : JsVal).

(** What [login] and [register] return: [{ success, error }]. *)
Record Result := { r_success : bool; r_error : JsVal }.

Definition start : Action := {| type := "LOGIN_START"; payload := JUndefined |}.

(** The common body of [login] and [register]; [fallback] is the last
    operand of [errorMessage]. *)
Definition attempt (fallback : string) (outcome : Settled) (state : AuthState)
  : AuthState * Result :=
  let state1 := authReducer state start in
  match outcome with
  | Resolved u =>
      (authReducer state1 {| type := "LOGIN_SUCCESS"; payload := u |},
       {| r_success := true; r_error := JUndefined |})
  | Rejected responseError message =>
      let errorMessage := orJs (orJs responseError message) (JStr fallback) in
      (authReducer state1 {| type := "LOGIN_FAIL"; payload := errorMessage |},
       {| r_success := false; r_error := errorMessage |})
  end.

Definition login : Settled -> AuthState -> AuthState * Result :=
  attempt "Login failed".

Definition register : Settled -> AuthState -> AuthState * Result :=
  attempt "Registration failed".

Definition logout (state : AuthState) : AuthState :=
  authReducer state {| type := "LOGOUT"; payload := JUndefined |}.

Definition clearError (state : AuthState) : AuthState :=
  authReducer state {| type := "CLEAR_ERROR"; payload := JUndefined |}.

(** The effect of the first render: [stored] is
    [authService.getCurrentUser()]. *)
Definition restore (stored : JsVal) (state : AuthState) : AuthState :=
  if truthy stored
  then authReducer state {| type := "LOGIN_SUCCESS"; payload := stored |}
  else state.

(** The operations a view can run on the provider. *)
Inductive Operation :=
| OpRestore (stored : JsVal)
| OpLogin (outcome : Settled)
| OpRegister (outcome : Settled)
| OpLogout
| OpClearError.

Definition perform (state : AuthState) (op : Operation) : AuthState :=
  match op with
  | OpRestore stored => restore stored state
  | OpLogin outcome => fst (login outcome state)
  | OpRegister outcome => fst (register outcome state)
  | OpLogout => logout state
  | OpClearError => clearError state
  end.

Definition performAll (ops : list Operation) (state : AuthState) : AuthState :=
  fold_left perform ops state.

(** Every call of the auth service that resolves brings a user. *)
Definition bringsUser (op : Operation) : Prop :=
  match op with
  | OpLogin (Resolved u) | OpRegister (Resolved u) => truthy u = true
  | _ => True
  end.

(** *** [hooks/useApi.js] *)

Record ApiState := { api_loading : bool; api_error : JsVal }.

(** [request(apiCall)]: the state when the call has settled and the value
    the promise resolves with ([None]: the error is thrown again).  The
    call resolves with [inl data], the [data] of the response, or rejects
    with [inr (responseError, message)]. *)
Definition request {A} (settled : A + JsVal * JsVal) (st : ApiState)
  : ApiState * option A :=
  match settled with
  | inl data => ({| api_loading := false; api_error := JNull |}, Some data)
  | inr (responseError, message) =>
      let errorMessage :=
        orJs (orJs responseError message) (JStr "An error occurred") in
      ({| api_loading := false; api_error := errorMessage |}, None)
  end.

(** *** The comment form of [PostDetail] *)

(** White space as [trim] removes it, among the ASCII characters. *)
Definition isSpace (c : ascii) : bool :=
  bool_decide (nat_of_ascii c ∈ [9; 10; 11; 12; 13; 32]).

Fixpoint trimStart (s : list ascii) : list ascii :=
  match s with
  | [] => []
  | c :: s' => if isSpace c then trimStart s' else s
  end.

(** [comment.trim()] *)
Definition trim (s : string) : string :=
  string_of_list_ascii
    (rev (trimStart (rev (trimStart (list_ascii_of_string s))))).

(** The state of the form and of the comments it shows. *)
Record FormState (C : Type) := {
  f_comments : list C;
  f_comment : string;
  f_addingComment : bool;
  f_commentError : JsVal
}.
Arguments f_comments {C}.
Arguments f_comment {C}.
Arguments f_addingComment {C}.
Arguments f_commentError {C}.

(** [handleAddComment]: [send] is [postService.addComment(post._id, ...)]
    as a function of the content, resolving with [inl data] or rejecting
    with [inr responseError]. *)
Definition handleAddComment {C} (isAuthenticated : bool)
    (send : string -> C + JsVal) (st : FormState C) : FormState C :=
  if String.eqb (trim (f_comment st)) EmptyString then
    {| f_comments := f_comments st; f_comment := f_comment st;
       f_addingComment := f_addingComment st;
       f_commentError := JStr "Comment cannot be empty" |}
  else if negb isAuthenticated then
    {| f_comments := f_comments st; f_comment := f_comment st;
       f_addingComment := f_addingComment st;
       f_commentError := JStr "You must be logged in to comment" |}
  else
    match send (f_comment st) with
    | inl data =>
        {| f_comments := f_comments st ++ [data]; f_comment := EmptyString;
           f_addingComment := false; f_commentError := JStr EmptyString |}
    | inr responseError =>
        {| f_comments := f_comments st; f_comment := f_comment st;
           f_addingComment := false;
           f_commentError := orJs responseError (JStr "Failed to add comment") |}
    end.

End Provider.

(** * Properties *)

(** ** The session reducer *)

Section SessionReducer.
Import Client.

Lemma eqb_other (t k : string) : t <> k -> String.eqb t k = false.
Proof. apply String.eqb_neq. Qed.

Lemma unknown_type_falls_through (s : AuthState) (a : Action) :
  type a ∉ knownTypes -> authReducer s a = s.
Proof.
  unfold knownTypes; intros Hnot.
  repeat (apply not_elem_of_cons in Hnot as [? Hnot]).
  unfold authReducer.
  by rewrite !eqb_other.
Qed.

Lemma initialState_consistent : consistent initialState.
Proof. split; [discriminate | intros H; by destruct H]. Qed.

Lemma authReducer_consistent (s : AuthState) (a : Action) :
  (type a = "LOGIN_SUCCESS" -> payload a <> JNull) ->
  consistent s -> consistent (authReducer s a).
Proof.
  intros Hpay Hs. unfold authReducer.
  repeat case_match; try assumption; unfold consistent; simpl.
  - match goal with H : String.eqb _ "LOGIN_SUCCESS" = true |- _ =>
      apply String.eqb_eq in H; specialize (Hpay H) end.
    tauto.
  - split; [discriminate | congruence].
  - split; [discriminate | congruence].
Qed.

Lemma dispatchAll_consistent (actions : list Action) (s : AuthState) :
  successPayloadsNonNull actions ->
  consistent s -> consistent (dispatchAll actions s).
Proof.
  unfold successPayloadsNonNull, dispatchAll.
  intros Hall; revert s.
  induction Hall as [|a actions Ha _ IH]; intros s Hs; simpl; [assumption|].
  apply IH. by apply authReducer_consistent.
Qed.

(** The same agreement when [undefined] counts as no user. *)
Lemma authReducer_present (s : AuthState) (a : Action) :
  (type a = "LOGIN_SUCCESS" -> nullish (payload a) = false) ->
  isAuthenticated s = negb (nullish (user s)) ->
  isAuthenticated (authReducer s a) = negb (nullish (user (authReducer s a))).
Proof.
  intros Hpay Hs. unfold authReducer.
  repeat case_match; try assumption; simpl; try reflexivity.
  match goal with H : String.eqb _ "LOGIN_SUCCESS" = true |- _ =>
    apply String.eqb_eq in H; rewrite (Hpay H) end.
  reflexivity.
Qed.

Lemma dispatchAll_present (actions : list Action) (s : AuthState) :
  Forall (fun a => type a = "LOGIN_SUCCESS" -> nullish (payload a) = false) actions ->
  isAuthenticated s = negb (nullish (user s)) ->
  isAuthenticated (dispatchAll actions s)
  = negb (nullish (user (dispatchAll actions s))).
Proof.
  unfold dispatchAll. intros Hall; revert s.
  induction Hall as [|a actions Ha _ IH]; intros s Hs; simpl; [assumption|].
  apply IH. by apply authReducer_present.
Qed.

End SessionReducer.

(** C8. The reducer implements the named transitions of the session: the
    start event sets [loading] and nothing else; the success event clears
    [loading], sets [isAuthenticated] and stores the payload as [user]; the
    failure event clears [loading], [isAuthenticated] and [user] and records
    the payload as [error]; the logout event clears [loading],
    [isAuthenticated] and [user]; the clear-error event clears [error]; an
    action of any other type leaves the state as it is. *)
Theorem authReducer_transitions (s : Client.AuthState) (p : Client.JsVal) :
  Client.authReducer s {| Client.type := "LOGIN_START"; Client.payload := p |}
  = {| Client.loading := true;
       Client.isAuthenticated := Client.isAuthenticated s;
       Client.user := Client.user s;
       Client.error := Client.error s |}
  /\ Client.authReducer s {| Client.type := "LOGIN_SUCCESS"; Client.payload := p |}
  = {| Client.loading := false;
       Client.isAuthenticated := true;
       Client.user := p;
       Client.error := Client.error s |}
  /\ Client.authReducer s {| Client.type := "LOGIN_FAIL"; Client.payload := p |}
  = {| Client.loading := false;
       Client.isAuthenticated := false;
       Client.user := Client.JNull;
       Client.error := p |}
  /\ Client.authReducer s {| Client.type := "LOGOUT"; Client.payload := p |}
  = {| Client.loading := false;
       Client.isAuthenticated := false;
       Client.user := Client.JNull;
       Client.error := Client.error s |}
  /\ Client.authReducer s {| Client.type := "CLEAR_ERROR"; Client.payload := p |}
  = {| Client.loading := Client.loading s;
       Client.isAuthenticated := Client.isAuthenticated s;
       Client.user := Client.user s;
       Client.error := Client.JNull |}
  /\ (forall t : string,
        t ∉ Client.knownTypes ->
        Client.authReducer s {| Client.type := t; Client.payload := p |} = s).
Proof.
  repeat split; try reflexivity.
  intros t Ht. by apply unknown_type_falls_through.
Qed.

Lemma authReducer_transitions_witness :
  ("REFRESH" ∉ Client.knownTypes)
  /\ Client.authReducer Client.initialState
       {| Client.type := "REFRESH"; Client.payload := Client.JUndefined |}
     = Client.initialState.
Proof.
  assert (Hnot : "REFRESH" ∉ Client.knownTypes).
  { unfold Client.knownTypes. rewrite !not_elem_of_cons.
    repeat split; try discriminate. apply not_elem_of_nil. }
  split; [exact Hnot |].
  exact (proj2 (proj2 (proj2 (proj2 (proj2
    (authReducer_transitions Client.initialState Client.JUndefined)))))
    "REFRESH" Hnot).
Defined.

(** C9. In every state reached from the initial state by dispatching actions
    whose [LOGIN_SUCCESS] payloads are not [null], [isAuthenticated] is true
    exactly when [user] is not [null]. *)
Theorem authenticated_iff_user (actions : list Client.Action) :
  Client.successPayloadsNonNull actions ->
  Client.isAuthenticated (Client.dispatchAll actions Client.initialState) = true
  <-> Client.user (Client.dispatchAll actions Client.initialState) <> Client.JNull.
Proof.
  intros Hall.
  apply (dispatchAll_consistent actions Client.initialState Hall).
  apply initialState_consistent.
Qed.

Lemma authenticated_iff_user_witness :
  Client.isAuthenticated
    (Client.dispatchAll
       [ {| Client.type := "LOGIN_START"; Client.payload := Client.JUndefined |};
         Fixture.login Fixture.clientBob;
         {| Client.type := "CLEAR_ERROR"; Client.payload := Client.JUndefined |} ]
       Client.initialState) = true
  <-> Client.user
    (Client.dispatchAll
       [ {| Client.type := "LOGIN_START"; Client.payload := Client.JUndefined |};
         Fixture.login Fixture.clientBob;
         {| Client.type := "CLEAR_ERROR"; Client.payload := Client.JUndefined |} ]
       Client.initialState) <> Client.JNull.
Proof.
  apply authenticated_iff_user.
  unfold Client.successPayloadsNonNull.
  repeat constructor; simpl; discriminate.
Defined.

(** ** The routes *)

Section Routes.
Import Server.

Lemma protect_authenticated db cred uid u :
  authenticatedAs db cred uid u -> protect db cred = inr (uid, u).
Proof. intros [-> Hu]. unfold protect. simpl. by rewrite Hu. Qed.

Lemma protect_inv db cred uid u :
  protect db cred = inr (uid, u) -> authenticatedAs db cred uid u.
Proof.
  unfold protect, authenticatedAs.
  destruct cred as [k|]; simpl; [|discriminate].
  destruct (users db !! k) eqn:Hk; simpl; [|discriminate].
  intros [= -> ->]. done.
Qed.

Lemma protect_rejects db cred r :
  protect db cred = inl r -> r = fail 401 "Unauthenticated".
Proof.
  unfold protect.
  destruct cred as [k|]; simpl; [destruct (users db !! k); simpl|]; congruence.
Qed.

Lemma authorize_admin u :
  User.role u = RoleAdmin -> authorize RoleAdmin u = inr tt.
Proof. intros H. unfold authorize. by rewrite bool_decide_eq_true_2. Qed.

Lemma authorize_other u :
  User.role u <> RoleAdmin -> authorize RoleAdmin u = inl (fail 401 "Forbidden").
Proof. intros H. unfold authorize. by rewrite bool_decide_eq_false_2. Qed.

Lemma notOwnerNorAdmin_false uid u post :
  notOwnerNorAdmin uid u post = false
  <-> Post.author post = uid \/ User.role u = RoleAdmin.
Proof.
  unfold notOwnerNorAdmin.
  rewrite andb_false_iff, !negb_false_iff, String.eqb_eq, bool_decide_eq_true.
  reflexivity.
Qed.

Lemma notOwnerNorAdmin_true uid u post :
  notOwnerNorAdmin uid u post = true
  <-> ~ (Post.author post = uid \/ User.role u = RoleAdmin).
Proof.
  rewrite <- notOwnerNorAdmin_false.
  destruct (notOwnerNorAdmin uid u post); split; congruence.
Qed.

(** Behind the gate, the handlers let the author and the admins pass. *)
Lemma updateHandler_owner_or_admin db uid u id post b :
  posts db !! id = Some post ->
  Post.author post = uid \/ User.role u = RoleAdmin ->
  updateHandler db uid u id b
  = inr (ok 200 (DPost id (applyBody b post)),
         setPosts (<[id := applyBody b post]> (posts db)) db).
Proof.
  intros Hpost Hown. apply notOwnerNorAdmin_false in Hown.
  unfold updateHandler. rewrite Hpost. simpl. by rewrite Hown.
Qed.

Lemma updateHandler_stranger db uid u id post b :
  posts db !! id = Some post ->
  ~ (Post.author post = uid \/ User.role u = RoleAdmin) ->
  updateHandler db uid u id b = inl (fail 401 "Not authorized to update this post").
Proof.
  intros Hpost Hown. apply notOwnerNorAdmin_true in Hown.
  unfold updateHandler. rewrite Hpost. simpl. by rewrite Hown.
Qed.

Lemma deleteHandler_owner_or_admin db uid u id post :
  posts db !! id = Some post ->
  Post.author post = uid \/ User.role u = RoleAdmin ->
  deleteHandler db uid u id = inr (ok 200 DEmpty, afterDelete db id post).
Proof.
  intros Hpost Hown. apply notOwnerNorAdmin_false in Hown.
  unfold deleteHandler, afterDelete. rewrite Hpost. simpl. rewrite Hown. simpl.
  by destruct (categories db !! Post.category post).
Qed.

Lemma deleteHandler_stranger db uid u id post :
  posts db !! id = Some post ->
  ~ (Post.author post = uid \/ User.role u = RoleAdmin) ->
  deleteHandler db uid u id = inl (fail 401 "Not authorized to delete this post").
Proof.
  intros Hpost Hown. apply notOwnerNorAdmin_true in Hown.
  unfold deleteHandler. rewrite Hpost. simpl. by rewrite Hown.
Qed.

(** The routes, for an admin and for anyone else who is logged in. *)
Lemma updatePost_admin db cred uid u id post b :
  authenticatedAs db cred uid u -> User.role u = RoleAdmin ->
  posts db !! id = Some post ->
  updatePost db cred id b
  = (ok 200 (DPost id (applyBody b post)),
     setPosts (<[id := applyBody b post]> (posts db)) db).
Proof.
  intros Hauth Hadmin Hpost. unfold updatePost.
  rewrite (protect_authenticated _ _ _ _ Hauth). simpl.
  rewrite (authorize_admin _ Hadmin). simpl.
  rewrite (updateHandler_owner_or_admin _ _ _ _ post) by auto. done.
Qed.

Lemma deletePost_admin db cred uid u id post :
  authenticatedAs db cred uid u -> User.role u = RoleAdmin ->
  posts db !! id = Some post ->
  deletePost db cred id = (ok 200 DEmpty, afterDelete db id post).
Proof.
  intros Hauth Hadmin Hpost. unfold deletePost.
  rewrite (protect_authenticated _ _ _ _ Hauth). simpl.
  rewrite (authorize_admin _ Hadmin). simpl.
  rewrite (deleteHandler_owner_or_admin _ _ _ _ post) by auto. done.
Qed.

Lemma updatePost_not_admin db cred uid u id b :
  authenticatedAs db cred uid u -> User.role u <> RoleAdmin ->
  updatePost db cred id b = (fail 401 "Forbidden", db).
Proof.
  intros Hauth Hrole. unfold updatePost.
  rewrite (protect_authenticated _ _ _ _ Hauth). simpl.
  by rewrite (authorize_other _ Hrole).
Qed.

Lemma deletePost_not_admin db cred uid u id :
  authenticatedAs db cred uid u -> User.role u <> RoleAdmin ->
  deletePost db cred id = (fail 401 "Forbidden", db).
Proof.
  intros Hauth Hrole. unfold deletePost.
  rewrite (protect_authenticated _ _ _ _ Hauth). simpl.
  by rewrite (authorize_other _ Hrole).
Qed.

(** A delete request that is not answered 401 comes from a stored admin. *)
Lemma deletePost_authorized db cred id :
  status (fst (deletePost db cred id)) <> 401%Z ->
  exists uid u, authenticatedAs db cred uid u /\ User.role u = RoleAdmin.
Proof.
  unfold deletePost. intros Hst.
  destruct (protect db cred) as [r|[uid u]] eqn:Hp.
  { apply protect_rejects in Hp as ->. by destruct Hst. }
  exists uid, u. split; [by apply protect_inv|].
  destruct (decide (User.role u = RoleAdmin)) as [|Hne]; [done|].
  simpl in Hst. rewrite (authorize_other _ Hne) in Hst. by destruct Hst.
Qed.

(** So does a successful one. *)
Lemma deletePost_success db cred id :
  success (fst (deletePost db cred id)) = true ->
  exists uid u, authenticatedAs db cred uid u /\ User.role u = RoleAdmin.
Proof.
  unfold deletePost. intros Hst.
  destruct (protect db cred) as [r|[uid u]] eqn:Hp.
  { apply protect_rejects in Hp as ->. discriminate. }
  exists uid, u. split; [by apply protect_inv|].
  destruct (decide (User.role u = RoleAdmin)) as [|Hne]; [done|].
  simpl in Hst. rewrite (authorize_other _ Hne) in Hst. discriminate.
Qed.

Lemma decrementCount_max c :
  decrementCount c
  = Category.setPostCount (Z.max 0 (Category.postCount c - 1)) c.
Proof.
  unfold decrementCount. f_equal.
  destruct (Z.ltb_spec (Category.postCount c - 1) 0); lia.
Qed.

End Routes.

(** The update and delete routes, gate and handler together.  For every
    request of a logged-in caller on a stored post: an admin passes the gate
    and the ownership check, and the operation proceeds; anyone else, the
    author of the post included, is answered 401 by the admin gate of the
    route and the store stays as it was.  Behind the gate, the ownership
    check of the handlers lets pass the author and the admins, and answers
    anyone else 401 without a change. *)
Theorem post_update_delete_gate
    (db : Server.Db) (cred : option Server.Id) (uid : Server.Id)
    (u : Server.User.t) (id : Server.Id) (post : Server.Post.t)
    (b : Server.PostBody) :
  Server.authenticatedAs db cred uid u ->
  Server.posts db !! id = Some post ->
  (Server.User.role u = Server.RoleAdmin ->
     Server.updatePost db cred id b
     = (Server.ok 200 (Server.DPost id (Server.applyBody b post)),
        Server.setPosts (<[id := Server.applyBody b post]> (Server.posts db)) db)
     /\ Server.deletePost db cred id
       = (Server.ok 200 Server.DEmpty, Server.afterDelete db id post))
  /\ (Server.User.role u <> Server.RoleAdmin ->
     Server.status (fst (Server.updatePost db cred id b)) = 401%Z
     /\ snd (Server.updatePost db cred id b) = db
     /\ Server.status (fst (Server.deletePost db cred id)) = 401%Z
     /\ snd (Server.deletePost db cred id) = db)
  /\ (Server.Post.author post = uid \/ Server.User.role u = Server.RoleAdmin ->
     Server.updateHandler db uid u id b
     = inr (Server.ok 200 (Server.DPost id (Server.applyBody b post)),
            Server.setPosts (<[id := Server.applyBody b post]> (Server.posts db)) db)
     /\ Server.deleteHandler db uid u id
       = inr (Server.ok 200 Server.DEmpty, Server.afterDelete db id post))
  /\ (~ (Server.Post.author post = uid \/ Server.User.role u = Server.RoleAdmin) ->
     Server.updateHandler db uid u id b
     = inl (Server.fail 401 "Not authorized to update this post")
     /\ Server.deleteHandler db uid u id
       = inl (Server.fail 401 "Not authorized to delete this post")).
Proof.
  intros Hauth Hpost. repeat split.
  - by apply (updatePost_admin db cred uid u).
  - by apply (deletePost_admin db cred uid u).
  - by rewrite (updatePost_not_admin db cred uid u).
  - by rewrite (updatePost_not_admin db cred uid u).
  - by rewrite (deletePost_not_admin db cred uid u).
  - by rewrite (deletePost_not_admin db cred uid u).
  - by apply updateHandler_owner_or_admin.
  - by apply deleteHandler_owner_or_admin.
  - by apply (updateHandler_stranger db uid u id post).
  - by apply (deleteHandler_stranger db uid u id post).
Qed.

Lemma post_update_delete_gate_witness :
  Server.updatePost Fixture.db (Some Fixture.alice) Fixture.hello Fixture.newTitle
  = (Server.ok 200
       (Server.DPost Fixture.hello
          (Server.applyBody Fixture.newTitle Fixture.helloDoc)),
     Server.setPosts
       (<[Fixture.hello := Server.applyBody Fixture.newTitle Fixture.helloDoc]>
          (Server.posts Fixture.db))
       Fixture.db).
Proof.
  refine (proj1 (proj1
    (post_update_delete_gate Fixture.db (Some Fixture.alice) Fixture.alice
       Fixture.aliceDoc Fixture.hello Fixture.helloDoc Fixture.newTitle _ _) _)).
  - split; reflexivity.
  - reflexivity.
  - reflexivity.
Defined.

(** A caller who is not logged in is refused by both routes, and the store
    stays as it was. *)
Lemma anonymous_update_delete_refused
    (db : Server.Db) (cred : option Server.Id) (id : Server.Id)
    (b : Server.PostBody) :
  (forall uid u, ~ Server.authenticatedAs db cred uid u) ->
  Server.updatePost db cred id b = (Server.fail 401 "Unauthenticated", db)
  /\ Server.deletePost db cred id = (Server.fail 401 "Unauthenticated", db).
Proof.
  intros Hanon. unfold Server.updatePost, Server.deletePost.
  destruct (Server.protect db cred) as [r|[uid u]] eqn:Hp.
  - apply protect_rejects in Hp as ->. done.
  - apply protect_inv in Hp. by destruct (Hanon uid u).
Qed.

(** C1. The author of a post is to pass the ownership check and have his
    update or delete proceed.  Bob wrote the post and is logged in without
    the admin role: the ownership check of the handlers, [post.author !==
    req.user.id && req.user.role !== 'admin'], lets him pass and the
    handlers would update and delete the post; yet the routes stop both
    requests at [authorize('admin')] in front of the handlers, answer 401
    and leave the post where it is. *)
Lemma author_stopped_at_gate :
  Server.authenticatedAs Fixture.db (Some Fixture.bob) Fixture.bob Fixture.bobDoc
  /\ Server.posts Fixture.db !! Fixture.hello = Some Fixture.helloDoc
  /\ Server.Post.author Fixture.helloDoc = Fixture.bob
  /\ Server.updatePost Fixture.db (Some Fixture.bob) Fixture.hello Fixture.newTitle
     = (Server.fail 401 "Forbidden", Fixture.db)
  /\ Server.deletePost Fixture.db (Some Fixture.bob) Fixture.hello
     = (Server.fail 401 "Forbidden", Fixture.db)
  /\ Server.updatePost Fixture.db (Some Fixture.bob) Fixture.hello Fixture.newTitle
     <> (Server.ok 200
           (Server.DPost Fixture.hello
              (Server.applyBody Fixture.newTitle Fixture.helloDoc)),
         Server.setPosts
           (<[Fixture.hello := Server.applyBody Fixture.newTitle Fixture.helloDoc]>
              (Server.posts Fixture.db))
           Fixture.db)
  /\ fst (Server.deletePost Fixture.db (Some Fixture.bob) Fixture.hello)
     <> Server.ok 200 Server.DEmpty
  /\ Server.success
       (fst (Server.updatePost Fixture.db (Some Fixture.bob) Fixture.hello
               Fixture.newTitle)) = false
  /\ Server.success
       (fst (Server.deletePost Fixture.db (Some Fixture.bob) Fixture.hello)) = false
  /\ Server.notOwnerNorAdmin Fixture.bob Fixture.bobDoc Fixture.helloDoc = false
  /\ Server.updateHandler Fixture.db Fixture.bob Fixture.bobDoc Fixture.hello
       Fixture.newTitle
     = inr (Server.ok 200
              (Server.DPost Fixture.hello
                 (Server.applyBody Fixture.newTitle Fixture.helloDoc)),
            Server.setPosts
              (<[Fixture.hello := Server.applyBody Fixture.newTitle Fixture.helloDoc]>
                 (Server.posts Fixture.db))
              Fixture.db)
  /\ Server.deleteHandler Fixture.db Fixture.bob Fixture.bobDoc Fixture.hello
     = inr (Server.ok 200 Server.DEmpty,
            Server.afterDelete Fixture.db Fixture.hello Fixture.helloDoc).
Proof.
  assert (Ha : Server.authenticatedAs Fixture.db (Some Fixture.bob)
                 Fixture.bob Fixture.bobDoc) by (split; reflexivity).
  assert (Hr : Server.User.role Fixture.bobDoc <> Server.RoleAdmin) by discriminate.
  assert (Hp : Server.posts Fixture.db !! Fixture.hello = Some Fixture.helloDoc)
    by reflexivity.
  rewrite (updatePost_not_admin _ _ _ _ Fixture.hello Fixture.newTitle Ha Hr).
  rewrite (deletePost_not_admin _ _ _ _ Fixture.hello Ha Hr).
  rewrite (updateHandler_owner_or_admin Fixture.db Fixture.bob Fixture.bobDoc
             Fixture.hello Fixture.helloDoc Fixture.newTitle Hp (or_introl eq_refl)).
  rewrite (deleteHandler_owner_or_admin Fixture.db Fixture.bob Fixture.bobDoc
             Fixture.hello Fixture.helloDoc Hp (or_introl eq_refl)).
  repeat split; try reflexivity; discriminate.
Qed.

(** C3. A successful deletion of a post whose category is stored leaves that
    category with its [postCount] lowered by one and not below zero: the new
    count is the larger of [0] and the old count minus one, so a count of
    zero stays zero and a positive count goes down by exactly one. *)
Theorem deletePost_decrements_postCount
    (db : Server.Db) (cred : option Server.Id) (id : Server.Id)
    (post : Server.Post.t) (c : Server.Category.t) :
  Server.posts db !! id = Some post ->
  Server.categories db !! Server.Post.category post = Some c ->
  Server.success (fst (Server.deletePost db cred id)) = true ->
  exists c' : Server.Category.t,
    Server.categories (snd (Server.deletePost db cred id))
      !! Server.Post.category post = Some c'
    /\ Server.Category.postCount c'
       = Z.max 0 (Server.Category.postCount c - 1)
    /\ (0 <= Server.Category.postCount c')%Z
    /\ (Server.Category.postCount c = 0%Z -> Server.Category.postCount c' = 0%Z)
    /\ (0 < Server.Category.postCount c ->
        Server.Category.postCount c' = Server.Category.postCount c - 1)%Z
    /\ Server.Category.name c' = Server.Category.name c
    /\ Server.Category.slug c' = Server.Category.slug c
    /\ Server.Category.description c' = Server.Category.description c.
Proof.
  intros Hpost Hcat Hok.
  destruct (deletePost_success _ _ _ Hok) as (uid & u & Hauth & Hadmin).
  rewrite (deletePost_admin db cred uid u id post Hauth Hadmin Hpost).
  unfold Server.afterDelete. rewrite Hcat. simpl.
  exists (Server.decrementCount c). rewrite lookup_insert_eq.
  rewrite decrementCount_max. simpl.
  repeat split; try reflexivity; lia.
Qed.

Lemma deletePost_decrements_postCount_witness :
  exists c' : Server.Category.t,
    Server.categories
      (snd (Server.deletePost Fixture.db (Some Fixture.alice) Fixture.hello))
      !! Fixture.tech = Some c'
    /\ Server.Category.postCount c' = 0%Z.
Proof.
  destruct (deletePost_decrements_postCount Fixture.db (Some Fixture.alice)
              Fixture.hello Fixture.helloDoc Fixture.techDoc)
    as (c' & Hc' & Hn & _); [reflexivity | reflexivity | reflexivity |].
  exists c'. split; [exact Hc' | exact Hn].
Defined.

(** C10. A delete request that is authorized (not answered 401), on a stored
    post whose category is no longer stored, succeeds: the response is 200
    with [success: true], the post is removed, and the categories are as
    they were. *)
Theorem deletePost_missing_category
    (db : Server.Db) (cred : option Server.Id) (id : Server.Id)
    (post : Server.Post.t) :
  Server.posts db !! id = Some post ->
  Server.categories db !! Server.Post.category post = None ->
  Server.status (fst (Server.deletePost db cred id)) <> 401%Z ->
  fst (Server.deletePost db cred id) = Server.ok 200 Server.DEmpty
  /\ Server.success (fst (Server.deletePost db cred id)) = true
  /\ Server.posts (snd (Server.deletePost db cred id)) = delete id (Server.posts db)
  /\ Server.categories (snd (Server.deletePost db cred id)) = Server.categories db
  /\ Server.users (snd (Server.deletePost db cred id)) = Server.users db.
Proof.
  intros Hpost Hcat Hst.
  destruct (deletePost_authorized _ _ _ Hst) as (uid & u & Hauth & Hadmin).
  rewrite (deletePost_admin db cred uid u id post Hauth Hadmin Hpost).
  unfold Server.afterDelete. rewrite Hcat. done.
Qed.

Lemma deletePost_missing_category_witness :
  fst (Server.deletePost Fixture.orphaned (Some Fixture.alice) Fixture.hello)
  = Server.ok 200 Server.DEmpty
  /\ Server.posts
       (snd (Server.deletePost Fixture.orphaned (Some Fixture.alice) Fixture.hello))
     = delete Fixture.hello (Server.posts Fixture.orphaned)
  /\ Server.categories
       (snd (Server.deletePost Fixture.orphaned (Some Fixture.alice) Fixture.hello))
     = Server.categories Fixture.orphaned.
Proof.
  destruct (deletePost_missing_category Fixture.orphaned (Some Fixture.alice)
              Fixture.hello Fixture.helloDoc)
    as (Hr & _ & Hp & Hc & _);
    [reflexivity | reflexivity | vm_compute; discriminate |].
  repeat split; assumption.
Defined.

(** ** Matching a query without regular-expression syntax *)

Section LiteralQueries.
Import Regex.

Lemma dot_is_meta : isMeta dot = true.
Proof. reflexivity. Qed.

Lemma compile_literal (q : list ascii) :
  forallb (fun c => negb (isMeta c)) q = true ->
  compile q = Some (Lit <$> q).
Proof.
  induction q as [|c q IH]; simpl; [done|].
  rewrite andb_true_iff, negb_true_iff. intros [Hc Hq].
  destruct (Ascii.eqb_spec c dot) as [->|_].
  { rewrite dot_is_meta in Hc. discriminate. }
  rewrite Hc, (IH Hq). done.
Qed.

Lemma matchHere_literal (q s : list ascii) :
  matchHere (Lit <$> q) s = true
  <-> exists suf, toLower <$> s = (toLower <$> q) ++ suf.
Proof.
  revert s. induction q as [|c q IH]; intros s; simpl.
  { split; [intros _; by exists (toLower <$> s) | done]. }
  destruct s as [|d s]; simpl.
  { split; [discriminate | intros [suf Hsuf]; discriminate]. }
  rewrite andb_true_iff, Ascii.eqb_eq, IH. split.
  - intros [Hcd [suf Hsuf]]. exists suf. rewrite Hcd. f_equal. exact Hsuf.
  - intros [suf [= Hcd Hsuf]]. split; [done | by exists suf].
Qed.

Lemma matchAnywhere_literal (q s : list ascii) :
  matchAnywhere (Lit <$> q) s = true
  <-> exists pre suf, toLower <$> s = pre ++ (toLower <$> q) ++ suf.
Proof.
  induction s as [|d s IH].
  - simpl. rewrite orb_false_r, matchHere_literal. split.
    + intros [suf Hsuf]. by exists [], suf.
    + intros (pre & suf & Hs). symmetry in Hs.
      apply app_eq_nil in Hs as [-> Hs]. exists suf. by rewrite Hs.
  - cbn [matchAnywhere]. rewrite orb_true_iff, matchHere_literal, IH. split.
    + intros [[suf Hsuf] | (pre & suf & Hs)].
      * by exists [], suf.
      * exists (toLower d :: pre), suf. simpl. f_equal. exact Hs.
    + intros ([|x pre] & suf & Hs).
      * left. by exists suf.
      * right. exists pre, suf. simpl in Hs. by injection Hs.
Qed.

(** On a query of ordinary characters the pattern test is the test for a
    substring, letter case ignored. *)
Lemma test_literal (q s : string) :
  test (Lit <$> list_ascii_of_string q) s = true <-> ciSubstring q s.
Proof. unfold test, ciSubstring. apply matchAnywhere_literal. Qed.

End LiteralQueries.

Section MoreRoutes.
Import Server.

Lemma validationErrors_nil rules :
  validationErrors rules = []
  <-> Forall (fun r => notEmpty (fst r) = true) rules.
Proof.
  unfold validationErrors.
  induction rules as [|[v msg] rules IH]; simpl.
  { split; [constructor | done]. }
  destruct (notEmpty v) eqn:Hv; simpl.
  - rewrite IH. split; [by constructor | by inversion 1].
  - split; [discriminate | inversion 1 as [|? ? Hx]; simpl in Hx; congruence].
Qed.

Lemma notEmpty_Some v :
  notEmpty v = true <-> exists s, v = Some s /\ s <> EmptyString.
Proof.
  destruct v as [s|]; simpl.
  - rewrite negb_true_iff, String.eqb_neq. split.
    + intros Hs. by exists s.
    + by intros (s' & [= <-] & Hs).
  - split; [discriminate | by intros (s & Hs & _)].
Qed.

(** The post that [createHandler] stores. *)
Lemma createHandler_inv db uid newId b r db' :
  createHandler db uid newId b = inr (r, db') ->
  exists cid c post,
    b_category b = Some cid
    /\ categories db !! cid = Some c
    /\ r = ok 201 (DPost newId post)
    /\ db' = setCategories
              (<[cid := Category.setPostCount (Category.postCount c + 1) c]>
                 (categories db))
              (setPosts (<[newId := post]> (posts db)) db).
Proof.
  unfold createHandler.
  destruct (bool_decide _) eqn:Hval; simpl; [|discriminate].
  apply bool_decide_eq_true, validationErrors_nil in Hval.
  inversion Hval as [|? ? _ Hval']; subst.
  inversion Hval' as [|? ? _ Hval'']; subst.
  inversion Hval'' as [|? ? Hcat _]; subst.
  apply notEmpty_Some in Hcat as (cid & Hcid & _). simpl in Hcid.
  rewrite Hcid. simpl.
  destruct (categories db !! cid) as [c|] eqn:Hc; simpl; [|discriminate].
  intros [= <- <-]. by eexists cid, c, _.
Qed.

Lemma createHandler_rejects db uid newId b r :
  createHandler db uid newId b = inl r -> status r = 400%Z /\ success r = false.
Proof.
  unfold createHandler.
  destruct (bool_decide _); simpl; [|by intros [= <-]].
  destruct (categories db !! _); simpl; [discriminate | by intros [= <-]].
Qed.

Lemma createHandler_unknown_category db uid newId b cid :
  b_category b = Some cid ->
  categories db !! cid = None ->
  exists r, createHandler db uid newId b = inl r
    /\ (notEmpty (b_title b) = true -> notEmpty (b_content b) = true ->
        cid <> EmptyString -> r = fail 400 "Category not found").
Proof.
  intros Hcid Hc. unfold createHandler.
  destruct (bool_decide _) eqn:Hval; simpl.
  - rewrite Hcid. simpl. rewrite Hc. simpl. by eexists.
  - eexists; split; [done|]. intros Ht Hb Hne.
    apply bool_decide_eq_false in Hval. destruct Hval.
    apply validationErrors_nil. repeat constructor; simpl; try done.
    rewrite Hcid. simpl. by rewrite negb_true_iff, String.eqb_neq.
Qed.

Lemma createPost_success db cred newId b :
  success (fst (createPost db cred newId b)) = true ->
  exists uid u r db',
    authenticatedAs db cred uid u /\ User.role u = RoleAdmin
    /\ createHandler db uid newId b = inr (r, db')
    /\ createPost db cred newId b = (r, db').
Proof.
  unfold createPost. intros Hok.
  destruct (protect db cred) as [r|[uid u]] eqn:Hp.
  { apply protect_rejects in Hp as ->. discriminate. }
  simpl in *.
  destruct (decide (User.role u = RoleAdmin)) as [Hadmin|Hne].
  2: { rewrite (authorize_other _ Hne) in Hok. discriminate. }
  rewrite (authorize_admin _ Hadmin) in *. simpl in *.
  destruct (createHandler db uid newId b) as [r|[r db']] eqn:Hh.
  { apply createHandler_rejects in Hh as [_ Hh]. simpl in Hok. congruence. }
  exists uid, u, r, db'. split; [by apply protect_inv|]. done.
Qed.

End MoreRoutes.

Section StoreQueries.
Import Server.

Lemma elem_of_findPosts P db id post :
  (id, post) ∈ findPosts P db <-> posts db !! id = Some post /\ P post = true.
Proof.
  unfold findPosts.
  rewrite list_elem_of_In, filter_In, <- list_elem_of_In, elem_of_map_to_list.
  reflexivity.
Qed.

Lemma findPosts_nil P db :
  findPosts P db = []
  <-> forall id post, posts db !! id = Some post -> P post = false.
Proof.
  split.
  - intros Hnil id post Hpost.
    destruct (P post) eqn:HP; [|done].
    assert (Hin : (id, post) ∈ findPosts P db) by by apply elem_of_findPosts.
    rewrite Hnil in Hin. by apply not_elem_of_nil in Hin.
  - intros Hnone. destruct (findPosts P db) as [|[id post] rest] eqn:Hf; [done|].
    assert (Hin : (id, post) ∈ findPosts P db) by (rewrite Hf; left).
    apply elem_of_findPosts in Hin as [Hpost HP].
    rewrite (Hnone _ _ Hpost) in HP. discriminate.
Qed.

(** [posts.length > 0] in the category route: some post refers to it. *)
Lemma category_has_posts db cid :
  (0 <? length (findPosts (fun p => String.eqb (Post.category p) cid) db))%nat = true
  <-> referenced db cid.
Proof.
  unfold referenced. split.
  - destruct (findPosts _ db) as [|[id post] rest] eqn:Hf; [discriminate|].
    intros _. exists id, post.
    assert (Hin : (id, post)
              ∈ findPosts (fun p => String.eqb (Post.category p) cid) db)
      by (rewrite Hf; left).
    apply elem_of_findPosts in Hin as [Hpost Hcat].
    by apply String.eqb_eq in Hcat.
  - intros (id & post & Hpost & Hcat).
    destruct (findPosts _ db) as [|kp rest] eqn:Hf; [|done].
    pose proof (proj1 (findPosts_nil _ _) Hf _ _ Hpost) as Hne.
    apply String.eqb_neq in Hne. done.
Qed.

Lemma deleteCategory_admin db cred uid u id :
  authenticatedAs db cred uid u -> User.role u = RoleAdmin ->
  deleteCategory db cred id = run db (deleteCategoryHandler db id).
Proof.
  intros Hauth Hadmin. unfold deleteCategory.
  rewrite (protect_authenticated _ _ _ _ Hauth). simpl.
  by rewrite (authorize_admin _ Hadmin).
Qed.

Lemma searchFilter_literal (q : string) (post : Post.t) :
  searchFilter (Regex.Lit <$> list_ascii_of_string q) post = true
  <-> occursIn q post.
Proof.
  unfold searchFilter, occursIn.
  rewrite !orb_true_iff, !test_literal, existsb_exists.
  split.
  - intros [[H|H]|(t & Ht & H)]; [by left | by right; left |].
    right; right. exists t. by rewrite list_elem_of_In, <- test_literal.
  - intros [H|[H|(t & Ht & H)]]; [by left; left | by left; right |].
    right. exists t. by rewrite <- list_elem_of_In, test_literal.
Qed.

Lemma returns_populated db P id post :
  returns (populatePost db <$> findPosts P db) id post
  <-> posts db !! id = Some post /\ P post = true.
Proof.
  unfold returns. rewrite <- elem_of_findPosts. split.
  - intros (v & Hv & <- & <-).
    apply list_elem_of_fmap in Hv as ([k p] & -> & Hkp). done.
  - intros Hin. exists (populatePost db (id, post)).
    split; [by apply list_elem_of_fmap_2 | done].
Qed.

End StoreQueries.

(** C2. A successful creation of a post refers to a stored category and
    leaves that category with a [postCount] that is the one from before plus
    exactly 1, its name, slug and description as they were; every other
    category is as it was. *)
Theorem createPost_increments_postCount
    (db : Server.Db) (cred : option Server.Id) (newId : Server.Id)
    (b : Server.PostBody) :
  Server.success (fst (Server.createPost db cred newId b)) = true ->
  exists (cid : Server.Id) (c c' : Server.Category.t),
    Server.b_category b = Some cid
    /\ Server.categories db !! cid = Some c
    /\ Server.categories (snd (Server.createPost db cred newId b)) !! cid = Some c'
    /\ Server.Category.postCount c' = (Server.Category.postCount c + 1)%Z
    /\ Server.Category.name c' = Server.Category.name c
    /\ Server.Category.slug c' = Server.Category.slug c
    /\ Server.Category.description c' = Server.Category.description c
    /\ (forall k : Server.Id, k <> cid ->
        Server.categories (snd (Server.createPost db cred newId b)) !! k
        = Server.categories db !! k).
Proof.
  intros Hok.
  destruct (createPost_success _ _ _ _ Hok)
    as (uid & u & r & db' & _ & _ & Hh & ->).
  apply createHandler_inv in Hh as (cid & c & post & Hcid & Hc & _ & ->).
  exists cid, c,
    (Server.Category.setPostCount (Server.Category.postCount c + 1) c).
  simpl. split; [done|]. split; [done|]. split; [apply lookup_insert_eq|].
  repeat split.
  intros k Hk. by apply lookup_insert_ne.
Qed.

Lemma createPost_increments_postCount_witness :
  Server.Category.postCount <$> Server.categories Fixture.db !! Fixture.tech
  = Some 1%Z
  /\ Server.Category.postCount
       <$> Server.categories
             (snd (Server.createPost Fixture.db (Some Fixture.alice) Fixture.fresh
                     (Fixture.draft Fixture.tech))) !! Fixture.tech
     = Some 2%Z
  /\ Server.categories
       (snd (Server.createPost Fixture.db (Some Fixture.alice) Fixture.fresh
               (Fixture.draft Fixture.tech))) !! Fixture.travel
     = Server.categories Fixture.db !! Fixture.travel.
Proof.
  destruct (createPost_increments_postCount Fixture.db (Some Fixture.alice)
              Fixture.fresh (Fixture.draft Fixture.tech))
    as (cid & c & c' & Hcid & Hc & Hc' & Hcount & _ & _ & _ & Hother);
    [reflexivity|].
  injection Hcid as <-.
  assert (Hold : Server.Category.postCount c = 1%Z).
  { assert (Some c = Some Fixture.techDoc) as [= ->] by (rewrite <- Hc; reflexivity).
    reflexivity. }
  split; [reflexivity|]. split.
  - rewrite Hc'. simpl. rewrite Hcount, Hold. reflexivity.
  - apply Hother. discriminate.
Defined.

(** C7 (as the route has it). An admin's request to create a post in a
    category that is not stored is answered 400, not 404; no post is created
    and no category changes: the store stays as it was.  When the title and
    the content are given, the answer is the error "Category not found". *)
Theorem createPost_unknown_category
    (db : Server.Db) (cred : option Server.Id) (uid : Server.Id)
    (u : Server.User.t) (newId : Server.Id) (b : Server.PostBody)
    (cid : Server.Id) :
  Server.authenticatedAs db cred uid u ->
  Server.User.role u = Server.RoleAdmin ->
  Server.b_category b = Some cid ->
  Server.categories db !! cid = None ->
  Server.status (fst (Server.createPost db cred newId b)) = 400%Z
  /\ Server.success (fst (Server.createPost db cred newId b)) = false
  /\ snd (Server.createPost db cred newId b) = db
  /\ (Server.notEmpty (Server.b_title b) = true ->
      Server.notEmpty (Server.b_content b) = true ->
      cid <> EmptyString ->
      fst (Server.createPost db cred newId b)
      = Server.fail 400 "Category not found").
Proof.
  intros Hauth Hadmin Hcid Hc. unfold Server.createPost.
  rewrite (protect_authenticated _ _ _ _ Hauth). simpl.
  rewrite (authorize_admin _ Hadmin). simpl.
  destruct (createHandler_unknown_category db uid newId b cid Hcid Hc)
    as (r & Hh & Hr).
  destruct (createHandler_rejects _ _ _ _ _ Hh) as [Hst Hsucc].
  rewrite Hh. simpl. repeat split; try done.
Qed.

Lemma createPost_unknown_category_witness :
  Server.status
    (fst (Server.createPost Fixture.db (Some Fixture.alice) Fixture.fresh
            (Fixture.draft Fixture.gone))) = 400%Z
  /\ snd (Server.createPost Fixture.db (Some Fixture.alice) Fixture.fresh
            (Fixture.draft Fixture.gone)) = Fixture.db.
Proof.
  destruct (createPost_unknown_category Fixture.db (Some Fixture.alice)
              Fixture.alice Fixture.aliceDoc Fixture.fresh
              (Fixture.draft Fixture.gone) Fixture.gone)
    as (Hst & _ & Hdb & _);
    [split; reflexivity | reflexivity | reflexivity | reflexivity |].
  split; [exact Hst | exact Hdb].
Defined.

(** Alice is an admin and asks for a post in a category that is not stored:
    the answer is 400, not 404. *)
Lemma unknown_category_is_400 :
  Server.authenticatedAs Fixture.db (Some Fixture.alice) Fixture.alice Fixture.aliceDoc
  /\ Server.User.role Fixture.aliceDoc = Server.RoleAdmin
  /\ Server.categories Fixture.db !! Fixture.gone = None
  /\ Server.createPost Fixture.db (Some Fixture.alice) Fixture.fresh
       (Fixture.draft Fixture.gone)
     = (Server.fail 400 "Category not found", Fixture.db)
  /\ Server.status
       (fst (Server.createPost Fixture.db (Some Fixture.alice) Fixture.fresh
               (Fixture.draft Fixture.gone))) <> 404%Z.
Proof.
  repeat split; try reflexivity.
  vm_compute. discriminate.
Qed.

(** C4 (as the route has it). For every request of an admin to delete a
    stored category: when some stored post refers to it, the answer is 400
    and the store stays as it was; when no stored post refers to it, the
    category is removed and the answer is 200, whatever its [postCount]. *)
Theorem deleteCategory_blocked_by_posts
    (db : Server.Db) (cred : option Server.Id) (uid : Server.Id)
    (u : Server.User.t) (id : Server.Id) (c : Server.Category.t) :
  Server.authenticatedAs db cred uid u ->
  Server.User.role u = Server.RoleAdmin ->
  Server.categories db !! id = Some c ->
  (Server.referenced db id ->
     Server.deleteCategory db cred id
     = (Server.fail 400 "Cannot delete category with existing posts", db))
  /\ (~ Server.referenced db id ->
     Server.deleteCategory db cred id
     = (Server.ok 200 Server.DEmpty,
        Server.setCategories (delete id (Server.categories db)) db)
     /\ Server.categories (snd (Server.deleteCategory db cred id)) !! id = None).
Proof.
  intros Hauth Hadmin Hc.
  rewrite (deleteCategory_admin db cred uid u id Hauth Hadmin).
  unfold Server.deleteCategoryHandler. rewrite Hc. simpl.
  split; intros Href.
  - apply category_has_posts in Href. by rewrite Href.
  - destruct (0 <? length _)%nat eqn:Hlen.
    { apply category_has_posts in Hlen. by destruct Href. }
    simpl. split; [done | apply lookup_delete_eq].
Qed.

Lemma deleteCategory_blocked_by_posts_witness :
  Server.deleteCategory Fixture.db (Some Fixture.alice) Fixture.tech
  = (Server.fail 400 "Cannot delete category with existing posts", Fixture.db).
Proof.
  refine (proj1 (deleteCategory_blocked_by_posts Fixture.db (Some Fixture.alice)
                   Fixture.alice Fixture.aliceDoc Fixture.tech Fixture.techDoc
                   _ _ _) _).
  - split; reflexivity.
  - reflexivity.
  - reflexivity.
  - exists Fixture.hello, Fixture.helloDoc. split; reflexivity.
Defined.

(** Alice creates a post in Tech and then moves it to Travel: Tech keeps a
    [postCount] of 1 and no post refers to it.  The route removes Tech all
    the same: the counter does not hold the deletion back. *)
Lemma counted_category_is_removed :
  Server.authenticatedAs Fixture.moved (Some Fixture.alice) Fixture.alice Fixture.aliceDoc
  /\ Server.User.role Fixture.aliceDoc = Server.RoleAdmin
  /\ Server.Category.postCount <$> Server.categories Fixture.moved !! Fixture.tech
     = Some 1%Z
  /\ Server.deleteCategory Fixture.moved (Some Fixture.alice) Fixture.tech
     = (Server.ok 200 Server.DEmpty,
        Server.setCategories (delete Fixture.tech (Server.categories Fixture.moved))
          Fixture.moved)
  /\ Server.status
       (fst (Server.deleteCategory Fixture.moved (Some Fixture.alice) Fixture.tech))
     <> 400%Z
  /\ Server.categories
       (snd (Server.deleteCategory Fixture.moved (Some Fixture.alice) Fixture.tech))
     !! Fixture.tech = None.
Proof.
  repeat split; try (vm_compute; reflexivity).
  vm_compute. discriminate.
Qed.

(** C5. A logged-in caller's request to comment on a stored post, with a
    content that is not empty, appends exactly one comment at the end of the
    comments of that post, with [user] the caller's id; the earlier comments
    and every other post stay as they were; the answer is 201 with the
    appended comment, its [user] filled in with the caller's name and avatar. *)
Theorem addComment_appends
    (db : Server.Db) (cred : option Server.Id) (uid : Server.Id)
    (u : Server.User.t) (id : Server.Id) (post : Server.Post.t)
    (text : string) :
  Server.authenticatedAs db cred uid u ->
  Server.posts db !! id = Some post ->
  text <> EmptyString ->
  exists post' : Server.Post.t,
    Server.addComment db cred id (Some text)
    = (Server.ok 201
         (Server.DComment
            (Some {| Server.cm_content := text;
                     Server.cm_user :=
                       Some {| Server.uv_id := uid;
                               Server.uv_name := Server.User.name u;
                               Server.uv_contact := Server.User.avatar u |} |})),
       Server.setPosts (<[id := post']> (Server.posts db)) db)
    /\ post' = Server.Post.setComments
                 (Server.Post.comments post
                    ++ [ {| Server.Comment.content := text;
                            Server.Comment.user := uid |} ])
                 post
    /\ length (Server.Post.comments post') = S (length (Server.Post.comments post))
    /\ (forall (i : nat) (c : Server.Comment.t),
          Server.Post.comments post !! i = Some c ->
          Server.Post.comments post' !! i = Some c)
    /\ (forall k : Server.Id, k <> id ->
          Server.posts (snd (Server.addComment db cred id (Some text))) !! k
          = Server.posts db !! k).
Proof.
  intros Hauth Hpost Htext. eexists. split; [|split; [reflexivity|]].
  - unfold Server.addComment.
    rewrite (protect_authenticated _ _ _ _ Hauth). simpl.
    unfold Server.commentHandler, Server.validationErrors. simpl.
    apply String.eqb_neq in Htext. rewrite Htext. simpl.
    rewrite Hpost. simpl. rewrite lookup_insert_eq.
    cbn [Server.Post.comments Server.Post.setComments].
    rewrite fmap_last, last_snoc.
    unfold Server.populateComment, Server.viewUser. simpl.
    destruct Hauth as [_ Hu]. rewrite Hu. reflexivity.
  - simpl. rewrite length_app. simpl. split; [lia|]. split.
    + intros i c Hi. by apply lookup_app_l_Some.
    + intros k Hk. unfold Server.addComment.
      rewrite (protect_authenticated _ _ _ _ Hauth). simpl.
      unfold Server.commentHandler, Server.validationErrors. simpl.
      apply String.eqb_neq in Htext. rewrite Htext. simpl.
      rewrite Hpost. simpl. by apply lookup_insert_ne.
Qed.

Lemma addComment_appends_witness :
  exists post' : Server.Post.t,
    Server.addComment Fixture.db (Some Fixture.bob) Fixture.hello (Some "Thanks")
    = (Server.ok 201
         (Server.DComment
            (Some {| Server.cm_content := "Thanks";
                     Server.cm_user :=
                       Some {| Server.uv_id := Fixture.bob;
                               Server.uv_name := "Bob";
                               Server.uv_contact := "bob.png" |} |})),
       Server.setPosts (<[Fixture.hello := post']> (Server.posts Fixture.db))
         Fixture.db)
    /\ Server.Post.comments post'
       = [ Fixture.firstComment;
           {| Server.Comment.content := "Thanks"; Server.Comment.user := Fixture.bob |} ].
Proof.
  destruct (addComment_appends Fixture.db (Some Fixture.bob) Fixture.bob
              Fixture.bobDoc Fixture.hello Fixture.helloDoc "Thanks")
    as (post' & Hres & Hpost' & _);
    [split; reflexivity | reflexivity | discriminate |].
  exists post'. split; [exact Hres |]. rewrite Hpost'. reflexivity.
Defined.

(** The search handler on a query of ordinary characters.  For every query
    that is not empty and has no character with a regular-expression
    meaning, the handler answers 200 with a list that contains a stored post
    exactly when the query occurs, letter case ignored, as a substring of
    the title, of the content or of one of the tags of the post; every
    returned entry is a stored post, and a query that occurs in no post
    yields the empty list. *)
Theorem searchPosts_literal_query (db : Server.Db) (q : string) :
  q <> EmptyString ->
  Regex.isLiteral q = true ->
  exists found : list Server.PostView,
    Server.searchPosts db (Some q)
    = Some (Server.ok 200 (Server.DPosts (length found) found))
    /\ (forall (id : Server.Id) (post : Server.Post.t),
          Server.posts db !! id = Some post ->
          Server.returns found id post <-> Server.occursIn q post)
    /\ (forall v : Server.PostView,
          v ∈ found -> Server.posts db !! Server.pv_id v = Some (Server.pv_post v))
    /\ ((forall (id : Server.Id) (post : Server.Post.t),
           Server.posts db !! id = Some post -> ~ Server.occursIn q post) ->
        found = []).
Proof.
  intros Hq Hlit.
  set (p := Regex.Lit <$> list_ascii_of_string q).
  exists (Server.populatePost db <$> Server.findPosts (Server.searchFilter p) db).
  split; [|split; [|split]].
  - destruct q as [|c q']; [done|].
    unfold Server.searchPosts.
    rewrite (compile_literal _ Hlit). reflexivity.
  - intros id post Hpost.
    rewrite returns_populated. unfold p. rewrite searchFilter_literal. tauto.
  - intros v Hv.
    apply list_elem_of_fmap in Hv as ([k post] & -> & Hkp).
    by apply elem_of_findPosts in Hkp as [Hpost _].
  - intros Hnone.
    replace (Server.findPosts (Server.searchFilter p) db) with (@nil (string * Server.Post.t));
      [done|].
    symmetry. apply findPosts_nil. intros id post Hpost.
    destruct (Server.searchFilter p post) eqn:Hf; [|done].
    apply searchFilter_literal in Hf. by destruct (Hnone id post Hpost).
Qed.

Lemma searchPosts_literal_query_witness :
  exists found : list Server.PostView,
    Server.searchPosts Fixture.db (Some "hello w")
    = Some (Server.ok 200 (Server.DPosts (length found) found))
    /\ (Server.returns found Fixture.hello Fixture.helloDoc
        <-> Server.occursIn "hello w" Fixture.helloDoc).
Proof.
  destruct (searchPosts_literal_query Fixture.db "hello w")
    as (found & Hres & Hiff & _); [discriminate | reflexivity |].
  exists found. split; [exact Hres |].
  apply Hiff. reflexivity.
Defined.

(** The query [.] has a regular-expression meaning: the search returns the
    post of the example, in whose title, content and tags no [.] occurs. *)
Lemma dot_query_returns_post :
  exists found : list Server.PostView,
    Server.searchPosts Fixture.db (Some ".")
    = Some (Server.ok 200 (Server.DPosts (length found) found))
    /\ Server.posts Fixture.db !! Fixture.hello = Some Fixture.helloDoc
    /\ Server.returns found Fixture.hello Fixture.helloDoc
    /\ ~ Server.occursIn "." Fixture.helloDoc.
Proof.
  exists [Server.populatePost Fixture.db (Fixture.hello, Fixture.helloDoc)].
  split; [vm_compute; reflexivity|].
  split; [reflexivity|]. split.
  - eexists. split; [left|]. split; reflexivity.
  - intros Hocc. apply searchFilter_literal in Hocc. vm_compute in Hocc. discriminate.
Qed.

(** C6. A search is to return every stored post in whose title, content or
    tags the query occurs, letter case ignored.  The example blog has such a
    post for the query [hello], but the request [GET /search?q=hello] does
    not get to the search handler: the posts router hands it to the route
    [/:id], registered before [/search], with [search] as the id, and no
    stored post has that id. *)
Lemma search_request_is_not_searched :
  Server.posts Fixture.db !! Fixture.hello = Some Fixture.helloDoc
  /\ Server.occursIn "hello" Fixture.helloDoc
  /\ Routes.dispatch Routes.GET ["search"] = Some Routes.GetPost
  /\ Routes.dispatch Routes.GET ["search"] <> Some Routes.SearchPosts
  /\ Server.posts Fixture.db !! "search" = None.
Proof.
  split; [reflexivity|]. split.
  - apply searchFilter_literal. vm_compute. reflexivity.
  - split; [reflexivity|]. split; [discriminate | reflexivity].
Qed.

(** ** The handlers on the example blog *)

Example update_needs_login :
  Server.updatePost Fixture.db None Fixture.hello Fixture.newTitle
  = (Server.fail 401 "Unauthenticated", Fixture.db).
Proof. reflexivity. Qed.

Example delete_of_unknown_post :
  Server.deletePost Fixture.db (Some Fixture.alice) Fixture.fresh
  = (Server.fail 404 "Post not found", Fixture.db).
Proof. reflexivity. Qed.

Example search_without_query :
  Server.searchPosts Fixture.db None
  = Some (Server.fail 400 "Please provide a search query")
  /\ Server.searchPosts Fixture.db (Some EmptyString)
     = Some (Server.fail 400 "Please provide a search query").
Proof. split; reflexivity. Qed.

Example search_by_tag_ignores_case :
  exists v : Server.PostView,
    Server.searchPosts Fixture.db (Some "INTRO")
    = Some (Server.ok 200 (Server.DPosts 1 [v]))
    /\ Server.pv_id v = Fixture.hello.
Proof. eexists. split; vm_compute; reflexivity. Qed.

Example search_absent_term :
  Server.searchPosts Fixture.db (Some "zebra")
  = Some (Server.ok 200 (Server.DPosts 0 [])).
Proof. vm_compute. reflexivity. Qed.

Example comment_needs_login :
  Server.addComment Fixture.db None Fixture.hello (Some "Thanks")
  = (Server.fail 401 "Unauthenticated", Fixture.db).
Proof. reflexivity. Qed.

Example comment_needs_content :
  Server.addComment Fixture.db (Some Fixture.carol) Fixture.hello (Some EmptyString)
  = ({| Server.status := 400;
        Server.body := Server.Invalid ["Please provide comment content"] |},
     Fixture.db).
Proof. reflexivity. Qed.

(** The walk of the specification: a post created in Tech raises its counter
    to 1, deleting the post lowers it to 0, and Tech can then be deleted. *)
Example create_delete_round_trip :
  Server.Category.postCount <$> Server.categories Fixture.emptyBlog !! Fixture.tech
  = Some 0%Z
  /\ Server.Category.postCount <$> Server.categories Fixture.posted !! Fixture.tech
     = Some 1%Z
  /\ Server.Category.postCount
       <$> Server.categories
             (snd (Server.deletePost Fixture.posted (Some Fixture.alice) Fixture.hello))
           !! Fixture.tech
     = Some 0%Z
  /\ fst (Server.deleteCategory
            (snd (Server.deletePost Fixture.posted (Some Fixture.alice) Fixture.hello))
            (Some Fixture.alice) Fixture.tech)
     = Server.ok 200 Server.DEmpty.
Proof. repeat split; vm_compute; reflexivity. Qed.

(** * Further properties of the routes *)

Section RouteOutcomes.
Import Server.

(** The store after each route: as it was, or as the handler leaves it. *)
Lemma createHandler_stores db uid newId b r db' :
  createHandler db uid newId b = inr (r, db') ->
  exists cid c post,
    b_category b = Some cid
    /\ categories db !! cid = Some c
    /\ Post.category post = cid /\ Post.author post = uid
    /\ Post.comments post = []
    /\ r = ok 201 (DPost newId post)
    /\ db' = setCategories
              (<[cid := Category.setPostCount (Category.postCount c + 1) c]>
                 (categories db))
              (setPosts (<[newId := post]> (posts db)) db).
Proof.
  unfold createHandler.
  destruct (bool_decide _) eqn:Hval; simpl; [|discriminate].
  apply bool_decide_eq_true, validationErrors_nil in Hval.
  inversion Hval as [|? ? _ Hval']; subst.
  inversion Hval' as [|? ? _ Hval'']; subst.
  inversion Hval'' as [|? ? Hcat _]; subst.
  apply notEmpty_Some in Hcat as (cid & Hcid & _). simpl in Hcid.
  rewrite Hcid. simpl.
  destruct (categories db !! cid) as [c|] eqn:Hc; simpl; [|discriminate].
  intros [= <- <-].
  eexists cid, c, _.
  split; [done|]. split; [done|].
  split; [|split; [|split; [|split; [reflexivity|reflexivity]]]]; reflexivity.
Qed.

Lemma createPost_cases db cred newId b :
  (success (fst (createPost db cred newId b)) = false
   /\ snd (createPost db cred newId b) = db)
  \/ exists uid u cid c post,
       authenticatedAs db cred uid u /\ User.role u = RoleAdmin
       /\ b_category b = Some cid /\ categories db !! cid = Some c
       /\ Post.category post = cid /\ Post.author post = uid
       /\ Post.comments post = []
       /\ createPost db cred newId b
          = (ok 201 (DPost newId post),
             setCategories
               (<[cid := Category.setPostCount (Category.postCount c + 1) c]>
                  (categories db))
               (setPosts (<[newId := post]> (posts db)) db)).
Proof.
  unfold createPost.
  destruct (protect db cred) as [r|[uid u]] eqn:Hp.
  { apply protect_rejects in Hp as ->. by left. }
  simpl. destruct (decide (User.role u = RoleAdmin)) as [Hadmin|Hne].
  2: { rewrite (authorize_other _ Hne). by left. }
  rewrite (authorize_admin _ Hadmin). simpl.
  destruct (createHandler db uid newId b) as [r|[r db']] eqn:Hh.
  { apply createHandler_rejects in Hh as [_ Hh]. by left. }
  right. apply createHandler_stores in Hh
    as (cid & c & post & Hcid & Hc & Hcat & Hauthor & Hcom & -> & ->).
  exists uid, u, cid, c, post. split; [by apply protect_inv|]. done.
Qed.

Lemma updatePost_cases db cred id b :
  (success (fst (updatePost db cred id b)) = false
   /\ snd (updatePost db cred id b) = db)
  \/ exists uid u post,
       authenticatedAs db cred uid u /\ User.role u = RoleAdmin
       /\ posts db !! id = Some post
       /\ updatePost db cred id b
          = (ok 200 (DPost id (applyBody b post)),
             setPosts (<[id := applyBody b post]> (posts db)) db).
Proof.
  unfold updatePost.
  destruct (protect db cred) as [r|[uid u]] eqn:Hp.
  { apply protect_rejects in Hp as ->. by left. }
  apply protect_inv in Hp.
  simpl. destruct (decide (User.role u = RoleAdmin)) as [Hadmin|Hne].
  2: { rewrite (authorize_other _ Hne). by left. }
  rewrite (authorize_admin _ Hadmin). simpl.
  destruct (posts db !! id) as [post|] eqn:Hpost.
  - right. exists uid, u, post.
    rewrite (updateHandler_owner_or_admin _ _ _ _ post) by auto. done.
  - left. unfold updateHandler. rewrite Hpost. done.
Qed.

Lemma deletePost_cases db cred id :
  (success (fst (deletePost db cred id)) = false
   /\ snd (deletePost db cred id) = db)
  \/ exists uid u post,
       authenticatedAs db cred uid u /\ User.role u = RoleAdmin
       /\ posts db !! id = Some post
       /\ deletePost db cred id = (ok 200 DEmpty, afterDelete db id post).
Proof.
  unfold deletePost.
  destruct (protect db cred) as [r|[uid u]] eqn:Hp.
  { apply protect_rejects in Hp as ->. by left. }
  apply protect_inv in Hp.
  simpl. destruct (decide (User.role u = RoleAdmin)) as [Hadmin|Hne].
  2: { rewrite (authorize_other _ Hne). by left. }
  rewrite (authorize_admin _ Hadmin). simpl.
  destruct (posts db !! id) as [post|] eqn:Hpost.
  - right. exists uid, u, post.
    rewrite (deleteHandler_owner_or_admin _ _ _ _ post) by auto. done.
  - left. unfold deleteHandler. rewrite Hpost. done.
Qed.

Lemma addComment_cases db cred id content :
  (success (fst (addComment db cred id content)) = false
   /\ snd (addComment db cred id content) = db)
  \/ exists uid u post text,
       authenticatedAs db cred uid u
       /\ posts db !! id = Some post
       /\ content = Some text /\ text <> EmptyString
       /\ success (fst (addComment db cred id content)) = true
       /\ snd (addComment db cred id content)
          = setPosts
              (<[id := Post.setComments
                         (Post.comments post
                            ++ [ {| Comment.content := text; Comment.user := uid |} ])
                         post]> (posts db)) db.
Proof.
  unfold addComment.
  destruct (protect db cred) as [r|[uid u]] eqn:Hp.
  { apply protect_rejects in Hp as ->. by left. }
  apply protect_inv in Hp. simpl.
  unfold commentHandler, validationErrors. simpl.
  destruct (notEmpty content) eqn:Hne; simpl; [|by left].
  apply notEmpty_Some in Hne as (text & -> & Htext).
  destruct (posts db !! id) as [post|] eqn:Hpost; simpl; [|by left].
  right. by exists uid, u, post, text.
Qed.

Lemma deleteCategory_cases db cred id :
  (success (fst (deleteCategory db cred id)) = false
   /\ snd (deleteCategory db cred id) = db)
  \/ exists uid u c,
       authenticatedAs db cred uid u /\ User.role u = RoleAdmin
       /\ categories db !! id = Some c
       /\ ~ referenced db id
       /\ deleteCategory db cred id
          = (ok 200 DEmpty, setCategories (delete id (categories db)) db).
Proof.
  unfold deleteCategory.
  destruct (protect db cred) as [r|[uid u]] eqn:Hp.
  { apply protect_rejects in Hp as ->. by left. }
  apply protect_inv in Hp.
  simpl. destruct (decide (User.role u = RoleAdmin)) as [Hadmin|Hne].
  2: { rewrite (authorize_other _ Hne). by left. }
  rewrite (authorize_admin _ Hadmin). simpl.
  unfold deleteCategoryHandler.
  destruct (categories db !! id) as [c|] eqn:Hc; simpl; [|by left].
  destruct (0 <? length _)%nat eqn:Hlen; simpl; [by left|].
  right. exists uid, u, c.
  split; [done|]. split; [done|]. split; [done|]. split; [|done].
  intros Href. apply category_has_posts in Href. congruence.
Qed.

End RouteOutcomes.

Section Counters.
Import Server Routes.

Lemma length_filter_Permutation {A} (f : A -> bool) (l l' : list A) :
  l ≡ₚ l' -> length (List.filter f l) = length (List.filter f l').
Proof.
  induction 1 as [|x l l' _ IH|x y l|l l' l'' _ IH1 _ IH2]; simpl.
  - reflexivity.
  - destruct (f x); simpl; lia.
  - destruct (f x), (f y); simpl; lia.
  - lia.
Qed.

Lemma count_insert_fresh (P : Post.t -> bool) (ps : gmap string Post.t) id post :
  ps !! id = None ->
  length (List.filter (fun kp => P (snd kp)) (map_to_list (<[id := post]> ps)))
  = ((if P post then 1 else 0)
     + length (List.filter (fun kp => P (snd kp)) (map_to_list ps)))%nat.
Proof.
  intros Hid.
  rewrite (length_filter_Permutation _ _ _ (map_to_list_insert _ _ post Hid)).
  simpl. destruct (P post); simpl; lia.
Qed.

Lemma count_delete (P : Post.t -> bool) (ps : gmap string Post.t) id post :
  ps !! id = Some post ->
  length (List.filter (fun kp => P (snd kp)) (map_to_list ps))
  = ((if P post then 1 else 0)
     + length (List.filter (fun kp => P (snd kp)) (map_to_list (delete id ps))))%nat.
Proof.
  intros Hid.
  rewrite <- (length_filter_Permutation _ _ _ (map_to_list_delete _ _ _ Hid)).
  simpl. destruct (P post); simpl; lia.
Qed.

Lemma findPosts_insert_fresh P db id post :
  posts db !! id = None ->
  length (findPosts P (setPosts (<[id := post]> (posts db)) db))
  = ((if P post then 1 else 0) + length (findPosts P db))%nat.
Proof. apply count_insert_fresh. Qed.

Lemma findPosts_delete P db id post :
  posts db !! id = Some post ->
  length (findPosts P db)
  = ((if P post then 1 else 0)
     + length (findPosts P (setPosts (delete id (posts db)) db)))%nat.
Proof. apply count_delete. Qed.

Lemma findPosts_replace P db id post post' :
  posts db !! id = Some post -> P post' = P post ->
  length (findPosts P (setPosts (<[id := post']> (posts db)) db))
  = length (findPosts P db).
Proof.
  intros Hid HP. unfold findPosts. simpl.
  rewrite (count_delete P (posts db) id post Hid).
  rewrite <- insert_delete_eq.
  rewrite (count_insert_fresh P (delete id (posts db)) id post')
    by apply lookup_delete_eq.
  by rewrite HP.
Qed.

Lemma countRefs_setCategories cs db k :
  countRefs (setCategories cs db) k = countRefs db k.
Proof. reflexivity. Qed.

Lemma createPost_keeps_counts db cred newId b :
  countsAgree db -> posts db !! newId = None ->
  countsAgree (snd (createPost db cred newId b)).
Proof.
  intros Hinv Hfresh.
  destruct (createPost_cases db cred newId b)
    as [[_ ->]|(uid & u & cid & c & post & _ & _ & _ & Hc & Hcat & _ & _ & ->)];
    [done|].
  cbn [snd]. intros k ck Hk. rewrite countRefs_setCategories. unfold countRefs.
  rewrite (findPosts_insert_fresh _ db newId post Hfresh).
  simpl in Hk. destruct (decide (cid = k)) as [<-|Hne].
  - rewrite lookup_insert_eq in Hk. injection Hk as <-. simpl.
    rewrite (Hinv _ _ Hc). unfold countRefs.
    rewrite Hcat, String.eqb_refl. lia.
  - rewrite lookup_insert_ne in Hk by done.
    rewrite (Hinv _ _ Hk). unfold countRefs.
    rewrite Hcat. apply String.eqb_neq in Hne. rewrite Hne. done.
Qed.

Lemma deletePost_keeps_counts db cred id :
  countsAgree db -> countsAgree (snd (deletePost db cred id)).
Proof.
  intros Hinv.
  destruct (deletePost_cases db cred id)
    as [[_ ->]|(uid & u & post & _ & _ & Hpost & ->)]; [done|].
  cbn [snd]. intros k ck Hk. unfold afterDelete in *.
  assert (Hcount : forall k',
    countRefs db k'
    = ((if String.eqb (Post.category post) k' then 1 else 0)
       + countRefs (setPosts (delete id (posts db)) db) k')%nat).
  { intros k'. unfold countRefs.
    exact (findPosts_delete (fun p => String.eqb (Post.category p) k') db id post Hpost). }
  destruct (categories db !! Post.category post) as [c|] eqn:Hc.
  - rewrite countRefs_setCategories. simpl in Hk.
    destruct (decide (Post.category post = k)) as [<-|Hne].
    + rewrite lookup_insert_eq in Hk. injection Hk as <-.
      rewrite decrementCount_max. cbn [Category.postCount Category.setPostCount].
      rewrite (Hinv _ _ Hc), (Hcount (Post.category post)), String.eqb_refl.
      lia.
    + rewrite lookup_insert_ne in Hk by done.
      rewrite (Hinv _ _ Hk), (Hcount k).
      apply String.eqb_neq in Hne. rewrite Hne. done.
  - simpl in Hk. assert (Hne : Post.category post <> k) by congruence.
    rewrite (Hinv _ _ Hk), (Hcount k).
    apply String.eqb_neq in Hne. rewrite Hne. done.
Qed.

Lemma updatePost_keeps_counts db cred id b :
  countsAgree db ->
  (forall post, posts db !! id = Some post ->
     default (Post.category post) (b_category b) = Post.category post) ->
  countsAgree (snd (updatePost db cred id b)).
Proof.
  intros Hinv Hstay.
  destruct (updatePost_cases db cred id b)
    as [[_ ->]|(uid & u & post & _ & _ & Hpost & ->)]; [done|].
  cbn [snd]. intros k ck Hk. simpl in Hk.
  rewrite (Hinv _ _ Hk). unfold countRefs.
  rewrite (findPosts_replace _ db id post); [done..|].
  simpl. by rewrite (Hstay _ Hpost).
Qed.

Lemma addComment_keeps_counts db cred id content :
  countsAgree db -> countsAgree (snd (addComment db cred id content)).
Proof.
  intros Hinv.
  destruct (addComment_cases db cred id content)
    as [[_ ->]|(uid & u & post & text & _ & Hpost & _ & _ & _ & ->)]; [done|].
  intros k ck Hk. simpl in Hk.
  rewrite (Hinv _ _ Hk). unfold countRefs.
  by rewrite (findPosts_replace _ db id post).
Qed.

Lemma deleteCategory_keeps_counts db cred id :
  countsAgree db -> countsAgree (snd (deleteCategory db cred id)).
Proof.
  intros Hinv.
  destruct (deleteCategory_cases db cred id)
    as [[_ ->]|(uid & u & c & _ & _ & _ & _ & ->)]; [done|].
  intros k ck Hk. simpl in Hk.
  apply lookup_delete_Some in Hk as [_ Hk].
  by rewrite (Hinv _ _ Hk).
Qed.

Lemma handle_keeps_counts db req :
  countsAgree db -> keepsCount db req -> countsAgree (handle db req).
Proof.
  intros Hinv Hreq. destruct req; simpl in *.
  - by apply createPost_keeps_counts.
  - by apply updatePost_keeps_counts.
  - by apply deletePost_keeps_counts.
  - by apply addComment_keeps_counts.
  - by apply deleteCategory_keeps_counts.
Qed.

Lemma handle_keeps_nonnegative db req :
  countsNonNegative db -> countsNonNegative (handle db req).
Proof.
  intros Hinv. destruct req as [cred newId b|cred id b|cred id|cred id content|cred id];
    simpl.
  - destruct (createPost_cases db cred newId b)
      as [[_ ->]|(uid & u & cid & c & post & _ & _ & _ & Hc & _ & _ & _ & ->)];
      [done|].
    intros k ck Hk. simpl in Hk.
    destruct (decide (cid = k)) as [<-|Hne].
    + rewrite lookup_insert_eq in Hk. injection Hk as <-. simpl.
      specialize (Hinv _ _ Hc). lia.
    + rewrite lookup_insert_ne in Hk by done. by apply (Hinv k).
  - destruct (updatePost_cases db cred id b)
      as [[_ ->]|(uid & u & post & _ & _ & _ & ->)]; done.
  - destruct (deletePost_cases db cred id)
      as [[_ ->]|(uid & u & post & _ & _ & Hpost & ->)]; [done|].
    simpl. intros k ck Hk. unfold afterDelete in Hk.
    destruct (categories db !! Post.category post) as [c|] eqn:Hc; simpl in Hk.
    + destruct (decide (Post.category post = k)) as [<-|Hne].
      * rewrite lookup_insert_eq in Hk. injection Hk as <-.
        rewrite decrementCount_max. simpl. lia.
      * rewrite lookup_insert_ne in Hk by done. by apply (Hinv k).
    + by apply (Hinv k).
  - destruct (addComment_cases db cred id content)
      as [[_ ->]|(uid & u & post & text & _ & _ & _ & _ & _ & ->)]; done.
  - destruct (deleteCategory_cases db cred id)
      as [[_ ->]|(uid & u & c & _ & _ & _ & _ & ->)]; [done|].
    intros k ck Hk. simpl in Hk.
    apply lookup_delete_Some in Hk as [_ Hk]. by apply (Hinv k).
Qed.

End Counters.

(** X1. A request that is not answered with [success: true] leaves the
    store as it was: every refusal of the post routes and of the deletion
    of a category comes before the first write. *)
Theorem refused_request_changes_nothing (db : Server.Db) (req : Routes.Request) :
  Server.success (Routes.reply db req) = false ->
  Routes.handle db req = db.
Proof.
  destruct req as [cred newId b|cred id b|cred id|cred id content|cred id];
    simpl; intros Hfail.
  - destruct (createPost_cases db cred newId b)
      as [[_ ->]|(? & ? & ? & ? & ? & _ & _ & _ & _ & _ & _ & _ & Heq)]; [done|].
    rewrite Heq in Hfail. discriminate.
  - destruct (updatePost_cases db cred id b)
      as [[_ ->]|(? & ? & ? & _ & _ & _ & Heq)]; [done|].
    rewrite Heq in Hfail. discriminate.
  - destruct (deletePost_cases db cred id)
      as [[_ ->]|(? & ? & ? & _ & _ & _ & Heq)]; [done|].
    rewrite Heq in Hfail. discriminate.
  - destruct (addComment_cases db cred id content)
      as [[_ ->]|(? & ? & ? & ? & _ & _ & _ & _ & Hok & _)]; [done|].
    congruence.
  - destruct (deleteCategory_cases db cred id)
      as [[_ ->]|(? & ? & ? & _ & _ & _ & _ & Heq)]; [done|].
    rewrite Heq in Hfail. discriminate.
Qed.

Lemma refused_request_changes_nothing_witness :
  Routes.handle Fixture.db
    (Routes.ReqDeletePost (Some Fixture.bob) Fixture.hello) = Fixture.db.
Proof.
  apply refused_request_changes_nothing. reflexivity.
Defined.

(** X2. No sequence of requests to the post routes and to the deletion of
    a category makes a [postCount] negative, when none was before. *)
Theorem postCount_stays_non_negative (reqs : list Routes.Request) (db : Server.Db) :
  Routes.countsNonNegative db ->
  Routes.countsNonNegative (Routes.handleAll reqs db).
Proof.
  unfold Routes.handleAll. revert db.
  induction reqs as [|req reqs IH]; intros db Hinv; simpl; [done|].
  apply IH. by apply handle_keeps_nonnegative.
Qed.

(** X3. When every category counts the posts that refer to it, it still
    does after any sequence of creations, updates, deletions and comments of
    posts and deletions of categories, provided each creation gets an id
    that no stored post has and no update moves a post to another category. *)
Theorem postCount_follows_posts (reqs : list Routes.Request) (db : Server.Db) :
  Routes.countsAgree db ->
  Routes.keepCounts db reqs ->
  Routes.countsAgree (Routes.handleAll reqs db).
Proof.
  unfold Routes.handleAll. revert db.
  induction reqs as [|req reqs IH]; intros db Hinv Hreqs; simpl; [done|].
  destruct Hreqs as [Hreq Hreqs].
  apply IH; [by apply handle_keeps_counts | done].
Qed.

Lemma postCount_stays_non_negative_witness :
  Routes.countsNonNegative
    (Routes.handleAll
       [ Routes.ReqDeletePost (Some Fixture.alice) Fixture.hello;
         Routes.ReqDeletePost (Some Fixture.alice) Fixture.hello;
         Routes.ReqDeleteCategory (Some Fixture.alice) Fixture.tech ]
       Fixture.db).
Proof.
  apply postCount_stays_non_negative.
  refine (bool_decide_unpack
            (map_Forall (fun _ c => (0 <= Server.Category.postCount c)%Z)
               (Server.categories Fixture.db)) _).
  vm_compute. exact I.
Defined.

Lemma postCount_follows_posts_witness :
  Routes.countsAgree
    (Routes.handleAll
       [ Routes.ReqCreatePost (Some Fixture.alice) Fixture.hello
           (Fixture.draft Fixture.tech);
         Routes.ReqAddComment (Some Fixture.bob) Fixture.hello (Some "Nice");
         Routes.ReqUpdatePost (Some Fixture.alice) Fixture.hello Fixture.newTitle;
         Routes.ReqDeletePost (Some Fixture.alice) Fixture.hello ]
       Fixture.emptyBlog).
Proof.
  apply postCount_follows_posts.
  - refine (bool_decide_unpack
              (map_Forall
                 (fun cid c =>
                    Server.Category.postCount c
                    = Z.of_nat (Routes.countRefs Fixture.emptyBlog cid))
                 (Server.categories Fixture.emptyBlog)) _).
    vm_compute. exact I.
  - simpl. repeat split; reflexivity.
Defined.

Section ReadsAfterWrites.
Import Server Routes.

Lemma countRefs_positive db cid :
  (0 < countRefs db cid)%nat <-> referenced db cid.
Proof.
  rewrite <- category_has_posts. unfold countRefs.
  symmetry. apply Nat.ltb_lt.
Qed.

Lemma setPostCount_back (c : Category.t) :
  (0 <= Category.postCount c)%Z ->
  decrementCount (Category.setPostCount (Category.postCount c + 1) c) = c.
Proof.
  intros Hc. rewrite decrementCount_max. destruct c as [n s d pc].
  unfold Category.setPostCount. simpl in *. f_equal. lia.
Qed.

Lemma filter_all {A} (l : list A) : List.filter (fun _ => true) l = l.
Proof. induction l as [|x l IH]; simpl; [done | by rewrite IH]. Qed.

Lemma authenticatedAs_users db db' cred uid u :
  users db' = users db ->
  authenticatedAs db cred uid u -> authenticatedAs db' cred uid u.
Proof. intros Hu [-> Hl]. split; [done | by rewrite Hu]. Qed.

End ReadsAfterWrites.

(** X4. When every category counts the posts that refer to it, an admin's
    request to delete a stored category is refused with 400 exactly when
    the [postCount] of the category is positive, and removes the category
    exactly when it is zero. *)
Theorem deleteCategory_by_counter
    (db : Server.Db) (cred : option Server.Id) (uid : Server.Id)
    (u : Server.User.t) (id : Server.Id) (c : Server.Category.t) :
  Routes.countsAgree db ->
  Server.authenticatedAs db cred uid u ->
  Server.User.role u = Server.RoleAdmin ->
  Server.categories db !! id = Some c ->
  ((0 < Server.Category.postCount c)%Z ->
     Server.deleteCategory db cred id
     = (Server.fail 400 "Cannot delete category with existing posts", db))
  /\ (Server.Category.postCount c = 0%Z ->
     Server.deleteCategory db cred id
     = (Server.ok 200 Server.DEmpty,
        Server.setCategories (delete id (Server.categories db)) db)).
Proof.
  intros Hinv Hauth Hadmin Hc.
  rewrite (deleteCategory_admin db cred uid u id Hauth Hadmin).
  unfold Server.deleteCategoryHandler. rewrite Hc. simpl.
  pose proof (Hinv _ _ Hc) as Hcount. unfold Routes.countRefs in Hcount.
  split; intros Hpc.
  - destruct (Nat.ltb_spec 0
      (length (Server.findPosts
                 (fun p => String.eqb (Server.Post.category p) id) db)));
      [done | lia].
  - destruct (Nat.ltb_spec 0
      (length (Server.findPosts
                 (fun p => String.eqb (Server.Post.category p) id) db)));
      [lia | done].
Qed.

Lemma deleteCategory_by_counter_witness :
  Server.deleteCategory Fixture.posted (Some Fixture.alice) Fixture.travel
  = (Server.ok 200 Server.DEmpty,
     Server.setCategories (delete Fixture.travel (Server.categories Fixture.posted))
       Fixture.posted).
Proof.
  refine (proj2 (deleteCategory_by_counter Fixture.posted (Some Fixture.alice)
                   Fixture.alice Fixture.aliceDoc Fixture.travel Fixture.travelDoc
                   _ _ _ _) _).
  - refine (bool_decide_unpack
              (map_Forall
                 (fun cid c =>
                    Server.Category.postCount c
                    = Z.of_nat (Routes.countRefs Fixture.posted cid))
                 (Server.categories Fixture.posted)) _).
    vm_compute. exact I.
  - split; reflexivity.
  - reflexivity.
  - reflexivity.
  - reflexivity.
Defined.

(** X5. Creating a post under an id that no stored post has and deleting it
    again gives back the store as it was before the creation, the
    [postCount] of the category included, when that count was not negative. *)
Theorem create_then_delete_restores
    (db : Server.Db) (cred : option Server.Id) (newId : Server.Id)
    (b : Server.PostBody) :
  Server.success (fst (Server.createPost db cred newId b)) = true ->
  Server.posts db !! newId = None ->
  Routes.countsNonNegative db ->
  Server.deletePost (snd (Server.createPost db cred newId b)) cred newId
  = (Server.ok 200 Server.DEmpty, db).
Proof.
  intros Hok Hfresh Hpos.
  destruct (createPost_cases db cred newId b)
    as [[Hfail _]|(uid & u & cid & c & post & Hauth & Hadmin & _ & Hc & Hcat & _ & _ & Heq)];
    [congruence|].
  rewrite Heq. cbn [snd].
  rewrite (deletePost_admin _ cred uid u newId post);
    [| by apply (authenticatedAs_users db) | done | apply lookup_insert_eq].
  f_equal. unfold Server.afterDelete. simpl.
  rewrite Hcat, lookup_insert_eq.
  rewrite insert_insert_eq, (setPostCount_back c (Hpos _ _ Hc)).
  rewrite (insert_id _ _ _ Hc), (delete_insert_id _ _ _ Hfresh).
  by destruct db.
Qed.

Lemma create_then_delete_restores_witness :
  Server.deletePost
    (snd (Server.createPost Fixture.db (Some Fixture.alice) Fixture.fresh
            (Fixture.draft Fixture.travel)))
    (Some Fixture.alice) Fixture.fresh
  = (Server.ok 200 Server.DEmpty, Fixture.db).
Proof.
  apply create_then_delete_restores.
  - reflexivity.
  - reflexivity.
  - refine (bool_decide_unpack
              (map_Forall (fun _ c => (0 <= Server.Category.postCount c)%Z)
                 (Server.categories Fixture.db)) _).
    vm_compute. exact I.
Defined.

Section Reads.
Import Server Routes.

Lemma findPosts_all db : findPosts (fun _ => true) db = map_to_list (posts db).
Proof. unfold findPosts. apply filter_all. Qed.

Lemma length_filter_le {A} (f : A -> bool) (l : list A) :
  (length (List.filter f l) <= length l)%nat.
Proof. induction l as [|x l IH]; simpl; [lia|]. destruct (f x); simpl; lia. Qed.

Lemma populatePost_ids db (l : list (Id * Post.t)) :
  pv_id <$> (populatePost db <$> l) = l.*1.
Proof. induction l as [|kp l IH]; simpl; [done | f_equal; exact IH]. Qed.

(** The response of a comment that is accepted. *)
Lemma addComment_accepted db cred uid u id post text :
  authenticatedAs db cred uid u ->
  posts db !! id = Some post ->
  text <> EmptyString ->
  addComment db cred id (Some text)
  = (ok 201
       (DComment
          (Some {| cm_content := text;
                   cm_user := Some {| uv_id := uid; uv_name := User.name u;
                                      uv_contact := User.avatar u |} |})),
     setPosts
       (<[id := Post.setComments
                  (Post.comments post
                     ++ [ {| Comment.content := text; Comment.user := uid |} ])
                  post]> (posts db)) db).
Proof.
  intros Hauth Hpost Htext. unfold addComment.
  rewrite (protect_authenticated _ _ _ _ Hauth). simpl.
  unfold commentHandler, validationErrors. simpl.
  apply String.eqb_neq in Htext. rewrite Htext. simpl.
  rewrite Hpost. simpl. rewrite lookup_insert_eq.
  cbn [Post.comments Post.setComments].
  rewrite fmap_last, last_snoc.
  unfold populateComment, viewUser. simpl.
  destruct Hauth as [_ Hu]. rewrite Hu. reflexivity.
Qed.

End Reads.

Lemma getPosts_characterised (db : Server.Db) :
  exists found : list Server.PostView,
    Routes.getPosts db = inr (200%Z, (size (Server.posts db), found))
    /\ length found = size (Server.posts db)
    /\ NoDup (Server.pv_id <$> found)
    /\ (forall (id : Server.Id) (post : Server.Post.t),
          Server.returns found id post <-> Server.posts db !! id = Some post).
Proof.
  exists (Server.populatePost db <$> Server.findPosts (fun _ => true) db).
  assert (Hlen : length (Server.populatePost db
                           <$> Server.findPosts (fun _ => true) db)
                 = size (Server.posts db)).
  { by rewrite length_fmap, findPosts_all, length_map_to_list. }
  split; [|split; [done|split]].
  - unfold Routes.getPosts. cbv zeta. by rewrite Hlen.
  - rewrite populatePost_ids, findPosts_all. apply NoDup_fst_map_to_list.
  - intros id post. rewrite returns_populated. tauto.
Qed.

(** X6. [GET /api/posts] answers 200 with every stored post exactly once:
    [count] is the number of stored posts, the ids of the entries have no
    repetition, and a post is among the entries exactly when it is stored. *)
Theorem getPosts_lists_the_store (db : Server.Db) :
  exists found : list Server.PostView,
    Routes.getPosts db = inr (200%Z, (size (Server.posts db), found))
    /\ length found = size (Server.posts db)
    /\ NoDup (Server.pv_id <$> found)
    /\ (forall (id : Server.Id) (post : Server.Post.t),
          Server.returns found id post <-> Server.posts db !! id = Some post).
Proof. apply getPosts_characterised. Qed.

(** X7. A post that has just been created can be read at its id: the
    answer carries the post of the creation response, the author shown is
    the caller, with name, email and avatar, the category shown is the
    category of the body, with name and slug, and the comments shown are
    those the post carries. *)
Theorem getPost_after_create
    (db : Server.Db) (cred : option Server.Id) (newId : Server.Id)
    (b : Server.PostBody) :
  Server.success (fst (Server.createPost db cred newId b)) = true ->
  exists (uid : Server.Id) (u : Server.User.t) (cid : Server.Id)
         (c : Server.Category.t) (post : Server.Post.t),
    Server.authenticatedAs db cred uid u
    /\ Server.b_category b = Some cid
    /\ Server.categories db !! cid = Some c
    /\ fst (Server.createPost db cred newId b)
       = Server.ok 201 (Server.DPost newId post)
    /\ Routes.getPost (snd (Server.createPost db cred newId b)) newId
       = inr (200%Z,
              {| Routes.pd_id := newId;
                 Routes.pd_post := post;
                 Routes.pd_author :=
                   Some {| Routes.av_id := uid;
                           Routes.av_name := Server.User.name u;
                           Routes.av_email := Server.User.email u;
                           Routes.av_avatar := Server.User.avatar u |};
                 Routes.pd_category :=
                   Some {| Server.cv_id := cid;
                           Server.cv_name := Server.Category.name c;
                           Server.cv_slug := Server.Category.slug c |};
                 Routes.pd_comments :=
                   Server.populateComment
                     (snd (Server.createPost db cred newId b))
                   <$> Server.Post.comments post |}).
Proof.
  intros Hok.
  destruct (createPost_cases db cred newId b)
    as [[Hfail _]|(uid & u & cid & c & post & Hauth & _ & Hcid & Hc & Hcat & Hau & _ & Heq)];
    [congruence|].
  exists uid, u, cid, c, post. rewrite Heq. cbn [fst snd].
  split; [done|]. split; [done|]. split; [done|]. split; [done|].
  unfold Routes.getPost. simpl. rewrite lookup_insert_eq. simpl.
  unfold Routes.viewAuthor, Server.viewCategory. simpl.
  rewrite Hau, Hcat, lookup_insert_eq.
  destruct Hauth as [_ Hu]. rewrite Hu. reflexivity.
Qed.

Lemma getPost_after_create_witness :
  exists (post : Server.Post.t) (detail : Routes.PostDetail),
    fst (Server.createPost Fixture.db (Some Fixture.alice) Fixture.fresh
           (Fixture.draft Fixture.tech))
    = Server.ok 201 (Server.DPost Fixture.fresh post)
    /\ Routes.getPost
         (snd (Server.createPost Fixture.db (Some Fixture.alice) Fixture.fresh
                 (Fixture.draft Fixture.tech))) Fixture.fresh
       = inr (200%Z, detail)
    /\ Routes.pd_post detail = post.
Proof.
  destruct (getPost_after_create Fixture.db (Some Fixture.alice) Fixture.fresh
              (Fixture.draft Fixture.tech))
    as (uid & u & cid & c & post & _ & _ & _ & Hfst & Hget);
    [reflexivity|].
  eexists post, _. split; [exact Hfst|]. split; [exact Hget|].
  reflexivity.
Defined.

(** X8. After a successful deletion the post cannot be read any more:
    [GET /api/posts/:id] answers 404, and [GET /api/posts] lists one post
    less, none of them with the id of the deleted post. *)
Theorem reads_after_delete
    (db : Server.Db) (cred : option Server.Id) (id : Server.Id) :
  Server.success (fst (Server.deletePost db cred id)) = true ->
  Routes.getPost (snd (Server.deletePost db cred id)) id
  = inl (Server.fail 404 "Post not found")
  /\ exists found : list Server.PostView,
       Routes.getPosts (snd (Server.deletePost db cred id))
       = inr (200%Z, (Nat.pred (size (Server.posts db)), found))
       /\ id ∉ Server.pv_id <$> found.
Proof.
  intros Hok.
  destruct (deletePost_cases db cred id)
    as [[Hfail _]|(uid & u & post & _ & _ & Hpost & Heq)]; [congruence|].
  rewrite Heq. cbn [snd].
  assert (Hposts : Server.posts (Server.afterDelete db id post)
                   = delete id (Server.posts db)).
  { unfold Server.afterDelete.
    by destruct (Server.categories db !! Server.Post.category post). }
  split.
  - unfold Routes.getPost. by rewrite Hposts, lookup_delete_eq.
  - destruct (getPosts_characterised (Server.afterDelete db id post))
      as (found & Hget & _ & _ & Hiff).
    exists found. rewrite Hposts in Hget.
    rewrite (map_size_delete_Some _ _) in Hget by eauto.
    split; [done|].
    intros Hin. apply list_elem_of_fmap in Hin as (v & -> & Hv).
    assert (Hret : Server.returns found (Server.pv_id v) (Server.pv_post v))
      by (by exists v).
    apply Hiff in Hret. by rewrite Hposts, lookup_delete_eq in Hret.
Qed.

Lemma reads_after_delete_witness :
  Routes.getPost
    (snd (Server.deletePost Fixture.db (Some Fixture.alice) Fixture.hello))
    Fixture.hello
  = inl (Server.fail 404 "Post not found").
Proof.
  apply (reads_after_delete Fixture.db (Some Fixture.alice) Fixture.hello).
  reflexivity.
Defined.

(** X9. The comments that [GET /api/posts/:id] shows after an accepted
    comment are those it showed before, in their order, followed by the
    comment that the answer to the request carries; author and category of
    the post are shown as before. *)
Theorem getPost_after_addComment
    (db : Server.Db) (cred : option Server.Id) (id : Server.Id)
    (content : option string) :
  Server.success (fst (Server.addComment db cred id content)) = true ->
  exists (c : Server.CommentView) (before after : Routes.PostDetail),
    fst (Server.addComment db cred id content)
    = Server.ok 201 (Server.DComment (Some c))
    /\ Routes.getPost db id = inr (200%Z, before)
    /\ Routes.getPost (snd (Server.addComment db cred id content)) id
       = inr (200%Z, after)
    /\ Routes.pd_comments after = Routes.pd_comments before ++ [c]
    /\ Routes.pd_author after = Routes.pd_author before
    /\ Routes.pd_category after = Routes.pd_category before.
Proof.
  intros Hok.
  destruct (addComment_cases db cred id content)
    as [[Hfail _]|(uid & u & post & text & Hauth & Hpost & -> & Htext & _ & _)];
    [congruence|].
  rewrite (addComment_accepted db cred uid u id post text Hauth Hpost Htext).
  cbn [fst snd]. eexists _, _, _. split; [reflexivity|].
  unfold Routes.getPost. rewrite Hpost. simpl. rewrite lookup_insert_eq. simpl.
  split; [reflexivity|]. split; [reflexivity|]. simpl.
  split; [|done].
  rewrite fmap_app. simpl. f_equal.
  unfold Server.populateComment, Server.viewUser. simpl.
  destruct Hauth as [_ Hu]. by rewrite Hu.
Qed.

Lemma getPost_after_addComment_witness :
  exists (c : Server.CommentView) (before after : Routes.PostDetail),
    Routes.getPost Fixture.db Fixture.hello = inr (200%Z, before)
    /\ Routes.getPost
         (snd (Server.addComment Fixture.db (Some Fixture.bob) Fixture.hello
                 (Some "Thanks"))) Fixture.hello
       = inr (200%Z, after)
    /\ Routes.pd_comments after = Routes.pd_comments before ++ [c].
Proof.
  destruct (getPost_after_addComment Fixture.db (Some Fixture.bob) Fixture.hello
              (Some "Thanks"))
    as (c & before & after & _ & Hb & Ha & Hc & _); [reflexivity|].
  exists c, before, after. split; [exact Hb|]. split; [exact Ha | exact Hc].
Defined.

Section SearchAndRouter.
Import Server Routes.

Lemma isMeta_toLower (c : ascii) : Regex.isMeta (Regex.toLower c) = Regex.isMeta c.
Proof. destruct c as [[] [] [] [] [] [] [] []]; reflexivity. Qed.

Lemma dot_toLower (c : ascii) :
  Ascii.eqb (Regex.toLower c) Regex.dot = Ascii.eqb c Regex.dot.
Proof. destruct c as [[] [] [] [] [] [] [] []]; reflexivity. Qed.

(** Queries that differ in letter case only compile to patterns that match
    the same subjects. *)
Lemma compile_same_case (q1 q2 : list ascii) :
  Regex.toLower <$> q1 = Regex.toLower <$> q2 ->
  match Regex.compile q1, Regex.compile q2 with
  | Some p1, Some p2 => forall s, Regex.matchHere p1 s = Regex.matchHere p2 s
  | None, None => True
  | _, _ => False
  end.
Proof.
  revert q2. induction q1 as [|c1 q1 IH]; intros [|c2 q2] Heq;
    try discriminate; simpl.
  { done. }
  injection Heq as Hc Hq. specialize (IH q2 Hq).
  rewrite <- (dot_toLower c1), <- (dot_toLower c2), Hc.
  destruct (Ascii.eqb (Regex.toLower c2) Regex.dot).
  - destruct (Regex.compile q1), (Regex.compile q2); simpl; try done.
    intros [|d s]; simpl; [done | by rewrite IH].
  - rewrite <- (isMeta_toLower c1), <- (isMeta_toLower c2), Hc.
    destruct (Regex.isMeta (Regex.toLower c2)); [done|].
    destruct (Regex.compile q1), (Regex.compile q2); simpl; try done.
    intros [|d s]; simpl; [done | by rewrite IH, Hc].
Qed.

Lemma matchAnywhere_ext (p1 p2 : list Regex.Atom) :
  (forall s, Regex.matchHere p1 s = Regex.matchHere p2 s) ->
  forall s, Regex.matchAnywhere p1 s = Regex.matchAnywhere p2 s.
Proof.
  intros Hhere s. induction s as [|d s IH]; cbn [Regex.matchAnywhere];
    rewrite Hhere; [done | by rewrite IH].
Qed.

Lemma searchFilter_ext (p1 p2 : list Regex.Atom) :
  (forall s, Regex.matchHere p1 s = Regex.matchHere p2 s) ->
  forall post, searchFilter p1 post = searchFilter p2 post.
Proof.
  intros Hhere post. unfold searchFilter, Regex.test.
  rewrite !(matchAnywhere_ext p1 p2 Hhere). f_equal.
  induction (Post.tags post) as [|t ts IH]; simpl; [done|].
  by rewrite (matchAnywhere_ext p1 p2 Hhere), IH.
Qed.

Lemma toLower_toUpper (c : ascii) :
  Regex.toLower (toUpper c) = Regex.toLower c.
Proof. destruct c as [[] [] [] [] [] [] [] []]; reflexivity. Qed.

Lemma sameLetters_lowerCase (q1 q2 : string) :
  sameLetters q1 q2 -> lowerCase q1 = lowerCase q2.
Proof.
  unfold sameLetters, lowerCase.
  generalize (list_ascii_of_string q1) (list_ascii_of_string q2).
  induction l as [|c1 l1 IH]; intros [|c2 l2] Heq; try discriminate; [done|].
  injection Heq as Hc Hl. simpl. f_equal; [|by apply IH].
  by rewrite <- (toLower_toUpper c1), <- (toLower_toUpper c2), Hc.
Qed.

Lemma lowerCase_empty (q1 q2 : string) :
  lowerCase q1 = lowerCase q2 -> q1 = EmptyString -> q2 = EmptyString.
Proof. intros Heq ->. by destruct q2. Qed.


End SearchAndRouter.

(** X10. Whatever the query, the posts that the search returns are posts
    that [GET /api/posts] lists, shown the same way, and they are no more
    than the stored posts. *)
Theorem search_returns_listed_posts (db : Server.Db) (q : string) (r : Server.Response) :
  Server.searchPosts db (Some q) = Some r ->
  Server.status r = 200%Z ->
  exists found all : list Server.PostView,
    r = Server.ok 200 (Server.DPosts (length found) found)
    /\ Routes.getPosts db = inr (200%Z, (length all, all))
    /\ (forall v, v ∈ found -> v ∈ all)
    /\ (length found <= size (Server.posts db))%nat.
Proof.
  intros Hsearch Hstatus.
  destruct q as [|a q']; [by injection Hsearch as <-|].
  unfold Server.searchPosts in Hsearch.
  destruct (Regex.compile _) as [p|]; [|discriminate].
  injection Hsearch as <-.
  eexists _, _. split; [reflexivity|]. split; [reflexivity|]. split.
  - intros v Hv. apply list_elem_of_fmap in Hv as ([k post] & -> & Hkp).
    apply list_elem_of_fmap_2. apply elem_of_findPosts in Hkp as [Hpost _].
    by apply elem_of_findPosts.
  - rewrite length_fmap, <- length_map_to_list. apply length_filter_le.
Qed.

Lemma search_returns_listed_posts_witness :
  exists found all : list Server.PostView,
    Routes.getPosts Fixture.db = inr (200%Z, (length all, all))
    /\ (forall v, v ∈ found -> v ∈ all)
    /\ length found = 1%nat.
Proof.
  destruct (search_returns_listed_posts Fixture.db "h.llo"
              (Server.ok 200
                 (Server.DPosts 1
                    [Server.populatePost Fixture.db (Fixture.hello, Fixture.helloDoc)])))
    as (found & all & Hr & Hall & Hsub & _);
    [vm_compute; reflexivity | reflexivity |].
  exists found, all. split; [exact Hall|]. split; [exact Hsub|].
  by injection Hr as <- _.
Defined.

(** X11. On the modelled patterns, queries made of ordinary characters and
    of [.], the search handler does not depend on the case of the letters
    A-Z and a-z of the query: it answers, and two such queries that differ
    in the case of these letters at most get the same answer. *)
Theorem search_ignores_query_case (db : Server.Db) (q1 q2 : string) :
  Routes.modelled q1 ->
  Routes.sameLetters q1 q2 ->
  is_Some (Server.searchPosts db (Some q1))
  /\ Server.searchPosts db (Some q1) = Server.searchPosts db (Some q2).
Proof.
  intros [p Hp] Hsame. apply sameLetters_lowerCase in Hsame as Heq.
  destruct q1 as [|a1 q1'].
  { rewrite (lowerCase_empty _ _ Heq eq_refl). split; [by eexists | done]. }
  destruct q2 as [|a2 q2']; [discriminate|].
  unfold Server.searchPosts.
  pose proof (compile_same_case _ _ Heq) as Hcase.
  rewrite Hp in *.
  destruct (Regex.compile (list_ascii_of_string (String a2 q2'))) as [p2|];
    [|done].
  simpl. split; [by eexists|]. unfold Server.findPosts.
  rewrite (filter_ext (fun kp => Server.searchFilter p (snd kp))
             (fun kp => Server.searchFilter p2 (snd kp))); [done|].
  intros kp. by apply searchFilter_ext.
Qed.

Lemma search_ignores_query_case_witness :
  is_Some (Server.searchPosts Fixture.db (Some "H.LLO w"))
  /\ Server.searchPosts Fixture.db (Some "H.LLO w")
     = Server.searchPosts Fixture.db (Some "h.llo W").
Proof.
  apply search_ignores_query_case; [by eexists | reflexivity].
Defined.

(** X12. No request reaches the search handler of the posts router: the
    route [/:id] is registered before [/search] and takes every [GET]
    request with one path segment, [GET /search] included. *)
Theorem search_route_is_shadowed :
  (forall (m : Routes.Method) (path : list string),
     Routes.dispatch m path <> Some Routes.SearchPosts)
  /\ Routes.dispatch Routes.GET ["search"] = Some Routes.GetPost.
Proof.
  split; [|reflexivity].
  intros m path. unfold Routes.dispatch, Routes.postsRouter.
  destruct m; simpl;
    destruct path as [|s [|s' path']]; simpl; try discriminate;
    unfold Routes.matchSegment;
    destruct (String.eqb_spec s EmptyString) as [->|Hs]; simpl;
    try discriminate;
    repeat (rewrite ?andb_false_r; simpl); try discriminate;
    repeat case_match; discriminate.
Qed.

Section Categories.
Import Server Routes.

Lemma categoryErrors_nil len b :
  categoryErrors len b = []
  <-> notEmpty (cb_name b) = true
      /\ (forall d, cb_description b = Some d -> (len d <= 200)%nat).
Proof.
  unfold categoryErrors.
  destruct (notEmpty (cb_name b)); simpl.
  - destruct (cb_description b) as [d|]; simpl.
    + destruct (Nat.leb_spec (len d) 200); split.
      * intros _. split; [done|]. by intros d' [= <-].
      * done.
      * discriminate.
      * intros [_ Hd]. specialize (Hd d eq_refl). lia.
    + split; [|done]. intros _. split; [done | discriminate].
  - split; [discriminate | by intros [? _]].
Qed.

Lemma createCategory_cases len build db cred newId b :
  (exists r, createCategory len build db cred newId b = (inl r, db))
  \/ (categoryErrors len b = []
      /\ createCategory len build db cred newId b
         = (inr (201%Z, (newId, build b)),
            setCategories (<[newId := build b]> (categories db)) db)).
Proof.
  unfold createCategory.
  destruct (protect db cred) as [r|[uid u]]; simpl; [left; by eexists|].
  destruct (authorize RoleAdmin u) as [r|[]]; simpl; [left; by eexists|].
  unfold createCategoryHandler.
  destruct (decide (categoryErrors len b = [])) as [Hnil|Herr].
  - right. split; [done|]. by rewrite bool_decide_eq_true_2.
  - left. rewrite bool_decide_eq_false_2 by done. simpl. by eexists.
Qed.

Lemma updateCategory_cases db cred id b :
  (exists r, updateCategory db cred id b = (inl r, db))
  \/ (exists old, categories db !! id = Some old
      /\ updateCategory db cred id b
         = (inr (200%Z, (id, applyCategoryBody b old)),
            setCategories (<[id := applyCategoryBody b old]> (categories db)) db)).
Proof.
  unfold updateCategory.
  destruct (protect db cred) as [r|[uid u]]; simpl; [left; by eexists|].
  destruct (authorize RoleAdmin u) as [r|[]]; simpl; [left; by eexists|].
  unfold updateCategoryHandler.
  destruct (categories db !! id) as [old|] eqn:Hold; simpl.
  - right. by exists old.
  - left. by eexists.
Qed.

End Categories.

(** X13. [POST /api/categories] creates a category only from a body whose
    name is present and not empty and whose description, if present, has at
    most 200 characters as the validator counts them; the category is then
    stored under the new id and nothing else changes.  An admin whose body
    fails one of the two rules is answered 400 with the messages of the
    failed rules, and the store stays as it was. *)
Theorem createCategory_checks_body
    (len : string -> nat)
    (build : Routes.CategoryBody -> Server.Category.t) (db : Server.Db)
    (cred : option Server.Id) (newId : Server.Id) (b : Routes.CategoryBody) :
  (forall (code : Z) (data : Server.Id * Server.Category.t),
     fst (Routes.createCategory len build db cred newId b) = inr (code, data) ->
     code = 201%Z /\ data = (newId, build b)
     /\ (exists name, Routes.cb_name b = Some name /\ name <> EmptyString)
     /\ (forall d, Routes.cb_description b = Some d -> (len d <= 200)%nat)
     /\ Server.categories (snd (Routes.createCategory len build db cred newId b))
        = <[newId := build b]> (Server.categories db)
     /\ Server.posts (snd (Routes.createCategory len build db cred newId b))
        = Server.posts db)
  /\ (forall (uid : Server.Id) (u : Server.User.t),
       Server.authenticatedAs db cred uid u ->
       Server.User.role u = Server.RoleAdmin ->
       (Routes.cb_name b = None \/ Routes.cb_name b = Some EmptyString
        \/ exists d, Routes.cb_description b = Some d /\ (200 < len d)%nat) ->
       exists errors : list string,
         errors <> []
         /\ ("Please provide a category name" ∈ errors
             <-> Routes.cb_name b = None \/ Routes.cb_name b = Some EmptyString)
         /\ ("Description cannot be more than 200 characters" ∈ errors
             <-> exists d, Routes.cb_description b = Some d /\ (200 < len d)%nat)
         /\ Routes.createCategory len build db cred newId b
            = (inl {| Server.status := 400;
                      Server.body := Server.Invalid errors |}, db)).
Proof.
  split.
  - intros code data Hans.
    destruct (createCategory_cases len build db cred newId b)
      as [[r Heq]|[Hnil Heq]]; rewrite Heq in *; [discriminate|].
    injection Hans as <- <-.
    apply categoryErrors_nil in Hnil as [Hname Hdesc].
    apply notEmpty_Some in Hname. done.
  - intros uid u Hauth Hadmin Hbad.
    exists (Routes.categoryErrors len b).
    assert (Hn : "Please provide a category name" ∈ Routes.categoryErrors len b
                 <-> Routes.cb_name b = None \/ Routes.cb_name b = Some EmptyString).
    { unfold Routes.categoryErrors.
      destruct (Routes.cb_name b) as [name|] eqn:Hname; simpl.
      - destruct (String.eqb_spec name EmptyString) as [->|Hne]; simpl.
        + split; [by right | intros _; left].
        + split; [|by intros [?|[= ?]]].
          destruct (Routes.cb_description b) as [d|]; [|by inversion 1].
          destruct (len d <=? 200)%nat; [by inversion 1|].
          intros Hin. apply list_elem_of_singleton in Hin. discriminate.
      - split; [by left | intros _; left]. }
    assert (Hd : "Description cannot be more than 200 characters"
                   ∈ Routes.categoryErrors len b
                 <-> exists d, Routes.cb_description b = Some d /\ (200 < len d)%nat).
    { unfold Routes.categoryErrors.
      destruct (Routes.cb_description b) as [d|] eqn:Hdesc.
      - destruct (Nat.leb_spec (len d) 200) as [Hle|Hgt].
        + rewrite app_nil_r. split.
          * destruct (Server.notEmpty (Routes.cb_name b)); [by inversion 1|].
            intros Hin. apply list_elem_of_singleton in Hin. discriminate.
          * intros (d' & [= <-] & Hlt). lia.
        + split; [intros _; by exists d|].
          intros _. apply elem_of_app. right. left.
      - rewrite app_nil_r. split; [|by intros (d & [=] & _)].
        destruct (Server.notEmpty (Routes.cb_name b)); [by inversion 1|].
        intros Hin. apply list_elem_of_singleton in Hin. discriminate. }
    assert (Herr : Routes.categoryErrors len b <> []).
    { intros Hnil. rewrite Hnil in Hn, Hd.
      destruct Hbad as [Hb|[Hb|Hb]].
      - apply (not_elem_of_nil "Please provide a category name"). apply Hn. by left.
      - apply (not_elem_of_nil "Please provide a category name"). apply Hn. by right.
      - apply (not_elem_of_nil "Description cannot be more than 200 characters").
        by apply Hd. }
    split; [done|]. split; [done|]. split; [done|].
    unfold Routes.createCategory.
    rewrite (protect_authenticated _ _ _ _ Hauth). simpl.
    rewrite (authorize_admin _ Hadmin). simpl.
    unfold Routes.createCategoryHandler.
    by rewrite bool_decide_eq_false_2.
Qed.

Lemma createCategory_checks_body_witness :
  exists errors : list string,
    "Description cannot be more than 200 characters" ∈ errors
    /\ Routes.createCategory Routes.characters Routes.plainCategory Fixture.db
         (Some Fixture.alice) Fixture.gone
         (Routes.named "Food" (Some Routes.longText))
       = (inl {| Server.status := 400; Server.body := Server.Invalid errors |},
          Fixture.db).
Proof.
  assert (Hlong : exists d,
            Routes.cb_description (Routes.named "Food" (Some Routes.longText)) = Some d
            /\ (200 < Routes.characters d)%nat).
  { exists Routes.longText. split; [reflexivity|]. vm_compute. lia. }
  destruct (proj2 (createCategory_checks_body Routes.characters
                     Routes.plainCategory Fixture.db
                     (Some Fixture.alice) Fixture.gone
                     (Routes.named "Food" (Some Routes.longText)))
              Fixture.alice Fixture.aliceDoc)
    as (errors & _ & _ & Hd & Heq).
  - split; reflexivity.
  - reflexivity.
  - right. right. exact Hlong.
  - exists errors. split; [by apply Hd | exact Heq].
Defined.

(** X14. [PUT /api/categories/:id] never adds or removes a category and
    never touches a post.  When it answers with a category, that category
    has, for each of name, slug, description and [postCount], the value of
    the body where the body has the field and the stored value where it has
    not; it is then the stored category of that id, the one that
    [GET /api/categories/:id] returns, and every other category is as it
    was. *)
Theorem updateCategory_patches_in_place
    (db : Server.Db) (cred : option Server.Id) (id : Server.Id)
    (b : Routes.CategoryBody) :
  dom (Server.categories (snd (Routes.updateCategory db cred id b)))
  = dom (Server.categories db)
  /\ Server.posts (snd (Routes.updateCategory db cred id b)) = Server.posts db
  /\ (forall (code : Z) (data : Server.Id * Server.Category.t),
       fst (Routes.updateCategory db cred id b) = inr (code, data) ->
       exists old new : Server.Category.t,
         Server.categories db !! id = Some old
         /\ code = 200%Z
         /\ data = (id, new)
         /\ Server.Category.name new
            = match Routes.cb_name b with
              | Some name => name
              | None => Server.Category.name old
              end
         /\ Server.Category.slug new
            = match Routes.cb_slug b with
              | Some slug => slug
              | None => Server.Category.slug old
              end
         /\ Server.Category.description new
            = match Routes.cb_description b with
              | Some description => description
              | None => Server.Category.description old
              end
         /\ Server.Category.postCount new
            = match Routes.cb_postCount b with
              | Some n => n
              | None => Server.Category.postCount old
              end
         /\ Server.categories (snd (Routes.updateCategory db cred id b)) !! id
            = Some new
         /\ Routes.getCategory (snd (Routes.updateCategory db cred id b)) id
            = inr (200%Z, (id, new))
         /\ (forall k : Server.Id, k <> id ->
             Server.categories (snd (Routes.updateCategory db cred id b)) !! k
             = Server.categories db !! k)).
Proof.
  destruct (updateCategory_cases db cred id b) as [[r Heq]|(old & Hold & Heq)];
    rewrite Heq; cbn [fst snd].
  - split; [done|]. split; [done|]. discriminate.
  - split; [|split; [done|]].
    + simpl. apply dom_insert_lookup_L. by eexists.
    + intros code data [= <- <-].
      exists old, (Routes.applyCategoryBody b old).
      split; [done|]. split; [done|]. split; [done|].
      split; [simpl; by destruct (Routes.cb_name b)|].
      split; [simpl; by destruct (Routes.cb_slug b)|].
      split; [simpl; by destruct (Routes.cb_description b)|].
      split; [simpl; by destruct (Routes.cb_postCount b)|].
      split; [simpl; apply lookup_insert_eq|].
      split.
      * unfold Routes.getCategory. simpl. by rewrite lookup_insert_eq.
      * intros k Hk. simpl. by apply lookup_insert_ne.
Qed.

(** X15. After a successful deletion of a category no stored post refers to
    it, the posts are as they were, and [GET /api/categories/:id] answers
    404 for it. *)
Theorem reads_after_deleteCategory
    (db : Server.Db) (cred : option Server.Id) (id : Server.Id) :
  Server.success (fst (Server.deleteCategory db cred id)) = true ->
  ~ Server.referenced (snd (Server.deleteCategory db cred id)) id
  /\ Server.posts (snd (Server.deleteCategory db cred id)) = Server.posts db
  /\ Routes.getCategory (snd (Server.deleteCategory db cred id)) id
     = inl (Server.fail 404 "Category not found").
Proof.
  intros Hok.
  destruct (deleteCategory_cases db cred id)
    as [[Hfail _]|(uid & u & c & _ & _ & _ & Href & Heq)]; [congruence|].
  rewrite Heq. cbn [snd]. split; [exact Href|]. split; [done|].
  unfold Routes.getCategory. simpl. by rewrite lookup_delete_eq.
Qed.

Lemma reads_after_deleteCategory_witness :
  Routes.getCategory
    (snd (Server.deleteCategory Fixture.db (Some Fixture.alice) Fixture.travel))
    Fixture.travel
  = inl (Server.fail 404 "Category not found").
Proof.
  apply (reads_after_deleteCategory Fixture.db (Some Fixture.alice) Fixture.travel).
  reflexivity.
Defined.

Section Resolving.
Import Server Routes.

Lemma is_Some_insert_other {A} (m : gmap string A) k k' x :
  is_Some (m !! k') -> is_Some (<[k := x]> m !! k').
Proof.
  intros Hk'. destruct (decide (k = k')) as [->|Hne].
  - rewrite lookup_insert_eq. by eexists.
  - by rewrite lookup_insert_ne.
Qed.

Lemma handle_keeps_references db req :
  referencesResolve db -> keepsCategory db req -> referencesResolve (handle db req).
Proof.
  intros Hinv Hreq.
  destruct req as [cred newId b|cred id b|cred id|cred id content|cred id];
    cbn [handle].
  - destruct (createPost_cases db cred newId b)
      as [[_ ->]|(uid & u & cid & c & post & _ & _ & _ & Hc & Hcat & _ & _ & ->)];
      [done|].
    intros k p Hk. simpl in *.
    destruct (decide (newId = k)) as [<-|Hne].
    + rewrite lookup_insert_eq in Hk. injection Hk as <-.
      subst cid. rewrite lookup_insert_eq. by eexists.
    + rewrite lookup_insert_ne in Hk by done.
      apply is_Some_insert_other. by apply (Hinv k).
  - destruct (updatePost_cases db cred id b)
      as [[_ ->]|(uid & u & post & _ & _ & Hpost & ->)]; [done|].
    intros k p Hk. simpl in *.
    destruct (decide (id = k)) as [<-|Hne].
    + rewrite lookup_insert_eq in Hk. injection Hk as <-. simpl.
      rewrite (Hreq _ Hpost). by apply (Hinv id).
    + rewrite lookup_insert_ne in Hk by done. by apply (Hinv k).
  - destruct (deletePost_cases db cred id)
      as [[_ ->]|(uid & u & post & _ & _ & Hpost & ->)]; [done|].
    intros k p Hk. cbn [snd] in *. unfold afterDelete in *.
    destruct (categories db !! Post.category post) as [c|] eqn:Hc; simpl in *;
      apply lookup_delete_Some in Hk as [_ Hk].
    + apply is_Some_insert_other. by apply (Hinv k).
    + by apply (Hinv k).
  - destruct (addComment_cases db cred id content)
      as [[_ ->]|(uid & u & post & text & _ & Hpost & _ & _ & _ & ->)]; [done|].
    intros k p Hk. simpl in *.
    destruct (decide (id = k)) as [<-|Hne].
    + rewrite lookup_insert_eq in Hk. injection Hk as <-. simpl.
      by apply (Hinv id).
    + rewrite lookup_insert_ne in Hk by done. by apply (Hinv k).
  - destruct (deleteCategory_cases db cred id)
      as [[_ ->]|(uid & u & c & _ & _ & _ & Href & ->)]; [done|].
    intros k p Hk. simpl in *.
    rewrite lookup_delete_ne; [by apply (Hinv k)|].
    intros Heq. apply Href. by exists k, p.
Qed.

End Resolving.

(** X16. When every stored post refers to a stored category, it still does
    after any sequence of creations, updates, deletions and comments of
    posts and deletions of categories in which no update moves a post to
    another category: a post is only created in a stored category, and a
    category is only deleted when no post refers to it. *)
Theorem references_stay_resolved (reqs : list Routes.Request) (db : Server.Db) :
  Routes.referencesResolve db ->
  Routes.keepCategories db reqs ->
  Routes.referencesResolve (Routes.handleAll reqs db).
Proof.
  unfold Routes.handleAll. revert db.
  induction reqs as [|req reqs IH]; intros db Hinv Hreqs; simpl; [done|].
  destruct Hreqs as [Hreq Hreqs].
  apply IH; [by apply handle_keeps_references | done].
Qed.

Lemma references_stay_resolved_witness :
  Routes.referencesResolve
    (Routes.handleAll
       [ Routes.ReqCreatePost (Some Fixture.alice) Fixture.fresh
           (Fixture.draft Fixture.travel);
         Routes.ReqDeleteCategory (Some Fixture.alice) Fixture.travel;
         Routes.ReqDeletePost (Some Fixture.alice) Fixture.hello;
         Routes.ReqDeleteCategory (Some Fixture.alice) Fixture.tech ]
       Fixture.db).
Proof.
  apply references_stay_resolved.
  - refine (bool_decide_unpack
              (map_Forall
                 (fun _ post =>
                    is_Some (Server.categories Fixture.db
                               !! Server.Post.category post))
                 (Server.posts Fixture.db)) _).
    vm_compute. exact I.
  - simpl. repeat split.
Defined.

(** * Further properties of the client *)

Section ClientFlows.
Import Client Provider.

Lemma authReducer_idem (s : AuthState) (a : Action) :
  authReducer (authReducer s a) a = authReducer s a.
Proof. unfold authReducer. repeat case_match; reflexivity. Qed.

Lemma authReducer_keeps_error (s : AuthState) (a : Action) :
  type a <> "LOGIN_FAIL" -> type a <> "CLEAR_ERROR" ->
  error (authReducer s a) = error s.
Proof.
  intros Hfail Hclear. apply String.eqb_neq in Hfail, Hclear.
  unfold authReducer. rewrite Hfail, Hclear.
  repeat case_match; reflexivity.
Qed.

Lemma orJs_truthy (a b : JsVal) : truthy b = true -> truthy (orJs a b) = true.
Proof. intros Hb. unfold orJs. by destruct (truthy a) eqn:Ha. Qed.

Lemma errorMessage_truthy (responseError message : JsVal) (fallback : string) :
  fallback <> EmptyString ->
  truthy (orJs (orJs responseError message) (JStr fallback)) = true.
Proof.
  intros Hf. apply orJs_truthy. simpl. by rewrite negb_true_iff, String.eqb_neq.
Qed.

(** What is true of the session whenever no operation is running. *)
Lemma perform_rests (s : AuthState) (op : Operation) :
  loading s = false ->
  (isAuthenticated s = false -> user s = JNull) ->
  (error s = JNull \/ truthy (error s) = true) ->
  loading (perform s op) = false
  /\ (isAuthenticated (perform s op) = false -> user (perform s op) = JNull)
  /\ (error (perform s op) = JNull \/ truthy (error (perform s op)) = true).
Proof.
  intros Hl Hu He.
  destruct op as [stored|[u|re msg]|[u|re msg]| |]; simpl.
  - unfold restore. destruct (truthy stored); [|done]. simpl. done.
  - done.
  - split; [done|]. split; [done|]. right. by apply errorMessage_truthy.
  - done.
  - split; [done|]. split; [done|]. right. by apply errorMessage_truthy.
  - done.
  - split; [done|]. split; [done|]. by left.
Qed.

Lemma perform_user (s : AuthState) (op : Operation) :
  bringsUser op ->
  isAuthenticated s = truthy (user s) ->
  isAuthenticated (perform s op) = truthy (user (perform s op)).
Proof.
  intros Hop Hs.
  destruct op as [stored|[u|re msg]|[u|re msg]| |]; simpl in *; try done.
  unfold restore. by destruct (truthy stored) eqn:Hst.
Qed.

Lemma performAll_rests (ops : list Operation) (s : AuthState) :
  loading s = false ->
  (isAuthenticated s = false -> user s = JNull) ->
  (error s = JNull \/ truthy (error s) = true) ->
  loading (performAll ops s) = false
  /\ (isAuthenticated (performAll ops s) = false -> user (performAll ops s) = JNull)
  /\ (error (performAll ops s) = JNull \/ truthy (error (performAll ops s)) = true).
Proof.
  unfold performAll. revert s.
  induction ops as [|op ops IH]; intros s Hl Hu He; simpl; [done|].
  destruct (perform_rests s op Hl Hu He) as (Hl' & Hu' & He').
  by apply IH.
Qed.

Lemma performAll_user (ops : list Operation) (s : AuthState) :
  Forall bringsUser ops ->
  isAuthenticated s = truthy (user s) ->
  isAuthenticated (performAll ops s) = truthy (user (performAll ops s)).
Proof.
  unfold performAll. intros Hall. revert s.
  induction Hall as [|op ops Hop _ IH]; intros s Hs; simpl; [done|].
  apply IH. by apply perform_user.
Qed.

Lemma trimStart_blank (s : list ascii) :
  forallb isSpace s = true -> trimStart s = [].
Proof.
  induction s as [|c s IH]; simpl; [done|].
  rewrite andb_true_iff. intros [Hc Hs]. by rewrite Hc, IH.
Qed.


End ClientFlows.

(** X17. Dispatching the same action twice in a row leaves the session as
    dispatching it once. *)
Theorem authReducer_idempotent (s : Client.AuthState) (a : Client.Action) :
  Client.authReducer (Client.authReducer s a) a = Client.authReducer s a.
Proof. apply authReducer_idem. Qed.

(** X18. Only [LOGIN_FAIL] and [CLEAR_ERROR] change the recorded error: a
    sequence of other actions, successful logins and logouts among them,
    leaves the error of an earlier failure in the state. *)
Theorem error_outlives_other_actions
    (actions : list Client.Action) (s : Client.AuthState) :
  Forall (fun a => Client.type a <> "LOGIN_FAIL" /\ Client.type a <> "CLEAR_ERROR")
         actions ->
  Client.error (Client.dispatchAll actions s) = Client.error s.
Proof.
  unfold Client.dispatchAll. intros Hall. revert s.
  induction Hall as [|a actions [Hf Hc] _ IH]; intros s; simpl; [done|].
  rewrite IH. by apply authReducer_keeps_error.
Qed.

Lemma error_outlives_other_actions_witness :
  Client.error
    (Client.dispatchAll
       [ Provider.start; Fixture.login Fixture.clientBob ]
       (Client.authReducer Client.initialState
          {| Client.type := "LOGIN_FAIL";
             Client.payload := Client.JStr "Invalid credentials" |}))
  = Client.JStr "Invalid credentials".
Proof.
  apply (error_outlives_other_actions
           [ Provider.start; Fixture.login Fixture.clientBob ]).
  repeat constructor; discriminate.
Defined.

(** X19. When [login] or [register] has settled, the session is not
    loading, and it is authenticated exactly when the returned [success] is
    true.  On a failure the returned error is the error of the state and is
    never an empty value, and the user is [null]; on a success the error of
    the state is the one from before. *)
Theorem login_and_register_settle
    (outcome : Provider.Settled) (state : Client.AuthState) :
  (Client.loading (fst (Provider.login outcome state)) = false
   /\ Client.isAuthenticated (fst (Provider.login outcome state))
      = Provider.r_success (snd (Provider.login outcome state))
   /\ (Provider.r_success (snd (Provider.login outcome state)) = false ->
       Client.error (fst (Provider.login outcome state))
       = Provider.r_error (snd (Provider.login outcome state))
       /\ Provider.truthy (Provider.r_error (snd (Provider.login outcome state))) = true
       /\ Client.user (fst (Provider.login outcome state)) = Client.JNull)
   /\ (Provider.r_success (snd (Provider.login outcome state)) = true ->
       Client.error (fst (Provider.login outcome state)) = Client.error state))
  /\ (Client.loading (fst (Provider.register outcome state)) = false
      /\ Client.isAuthenticated (fst (Provider.register outcome state))
         = Provider.r_success (snd (Provider.register outcome state))
      /\ (Provider.r_success (snd (Provider.register outcome state)) = false ->
          Client.error (fst (Provider.register outcome state))
          = Provider.r_error (snd (Provider.register outcome state))
          /\ Provider.truthy (Provider.r_error (snd (Provider.register outcome state)))
             = true
          /\ Client.user (fst (Provider.register outcome state)) = Client.JNull)
      /\ (Provider.r_success (snd (Provider.register outcome state)) = true ->
          Client.error (fst (Provider.register outcome state)) = Client.error state)).
Proof.
  destruct outcome as [u|re msg]; simpl.
  - repeat split; discriminate.
  - repeat split; try discriminate; by apply errorMessage_truthy.
Qed.

Lemma login_and_register_settle_witness :
  Client.error
    (fst (Provider.login (Provider.Rejected Client.JUndefined (Client.JStr EmptyString))
            Client.initialState))
  = Client.JStr "Login failed".
Proof.
  destruct (login_and_register_settle
              (Provider.Rejected Client.JUndefined (Client.JStr EmptyString))
              Client.initialState) as [(_ & _ & Hfail & _) _].
  destruct (Hfail eq_refl) as (Herr & _ & _). exact Herr.
Defined.

(** X20. Whatever operations of the provider have run to their end since
    the first render, the session is not loading, a session that is not
    authenticated has no user, and the error is [null] or a value that is
    not empty; when every resolved call of the auth service brought a user,
    the session is authenticated exactly when it has one. *)
Theorem provider_at_rest (ops : list Provider.Operation) :
  Client.loading (Provider.performAll ops Client.initialState) = false
  /\ (Client.isAuthenticated (Provider.performAll ops Client.initialState) = false ->
      Client.user (Provider.performAll ops Client.initialState) = Client.JNull)
  /\ (Client.error (Provider.performAll ops Client.initialState) = Client.JNull
      \/ Provider.truthy (Client.error (Provider.performAll ops Client.initialState))
         = true)
  /\ (Forall Provider.bringsUser ops ->
      Client.isAuthenticated (Provider.performAll ops Client.initialState)
      = Provider.truthy (Client.user (Provider.performAll ops Client.initialState))).
Proof.
  destruct (performAll_rests ops Client.initialState) as (Hl & Hu & He);
    [done | done | by left |].
  split; [done|]. split; [done|]. split; [done|].
  intros Hall. by apply performAll_user.
Qed.

Lemma provider_at_rest_witness :
  Client.isAuthenticated
    (Provider.performAll
       [ Provider.OpRestore Client.JNull;
         Provider.OpLogin (Provider.Rejected Client.JUndefined Client.JUndefined);
         Provider.OpClearError;
         Provider.OpRegister (Provider.Resolved (Client.JUser Fixture.clientBob)) ]
       Client.initialState)
  = Provider.truthy
      (Client.user
         (Provider.performAll
            [ Provider.OpRestore Client.JNull;
              Provider.OpLogin (Provider.Rejected Client.JUndefined Client.JUndefined);
              Provider.OpClearError;
              Provider.OpRegister (Provider.Resolved (Client.JUser Fixture.clientBob)) ]
            Client.initialState)).
Proof.
  refine (proj2 (proj2 (proj2 (provider_at_rest _))) _).
  repeat constructor.
Defined.

(** X21. When a request of [useApi] has settled, the hook is not loading
    and its state does not depend on the state before the request; the
    error is [null] exactly when the call resolved, and after a rejected
    call it is a value that is not empty. *)
Theorem useApi_request_settles
    (A : Type) (settled : A + Client.JsVal * Client.JsVal)
    (st st' : Provider.ApiState) :
  Provider.api_loading (fst (Provider.request settled st)) = false
  /\ fst (Provider.request settled st') = fst (Provider.request settled st)
  /\ (is_Some (snd (Provider.request settled st))
      <-> Provider.api_error (fst (Provider.request settled st)) = Client.JNull)
  /\ (snd (Provider.request settled st) = None ->
      Provider.truthy (Provider.api_error (fst (Provider.request settled st))) = true).
Proof.
  destruct settled as [data|[re msg]]; simpl.
  - split; [done|]. split; [done|]. split; [|discriminate].
    split; [done | by eexists].
  - assert (Ht : Provider.truthy
                   (Provider.orJs (Provider.orJs re msg)
                      (Client.JStr "An error occurred")) = true)
      by (by apply errorMessage_truthy).
    split; [done|]. split; [done|]. split; [|done].
    split; [by intros [? ?]|]. intros Hnull. rewrite Hnull in Ht. discriminate.
Qed.

Lemma useApi_request_settles_witness :
  Provider.truthy
    (Provider.api_error
       (fst (Provider.request
               (inr (Client.JUndefined, Client.JStr "Network Error") : nat + _)
               {| Provider.api_loading := false; Provider.api_error := Client.JNull |})))
  = true.
Proof.
  refine (proj2 (proj2 (proj2
    (useApi_request_settles nat (inr (Client.JUndefined, Client.JStr "Network Error"))
       {| Provider.api_loading := false; Provider.api_error := Client.JNull |}
       {| Provider.api_loading := false; Provider.api_error := Client.JNull |}))) _).
  reflexivity.
Defined.

(** X22. The comment form only ever adds to the comments it shows the
    comment with which the service answered, and only for a logged-in user
    whose text is not blank; it then empties the text field, and the text it
    sent is one that the rule of the comment route accepts.  In every other
    case the comments and the text stay as they were and an error that is
    not empty is shown. *)
Theorem handleAddComment_appends_only
    (C : Type) (isAuthenticated : bool) (send : string -> C + Client.JsVal)
    (st : Provider.FormState C) :
  (Provider.f_comments (Provider.handleAddComment isAuthenticated send st)
   = Provider.f_comments st
   /\ Provider.f_comment (Provider.handleAddComment isAuthenticated send st)
      = Provider.f_comment st
   /\ Provider.truthy
        (Provider.f_commentError (Provider.handleAddComment isAuthenticated send st))
      = true)
  \/ (exists c : C,
        isAuthenticated = true
        /\ Provider.trim (Provider.f_comment st) <> EmptyString
        /\ Server.notEmpty (Some (Provider.f_comment st)) = true
        /\ send (Provider.f_comment st) = inl c
        /\ Provider.handleAddComment isAuthenticated send st
           = {| Provider.f_comments := Provider.f_comments st ++ [c];
                Provider.f_comment := EmptyString;
                Provider.f_addingComment := false;
                Provider.f_commentError := Client.JStr EmptyString |}).
Proof.
  unfold Provider.handleAddComment.
  destruct (String.eqb_spec (Provider.trim (Provider.f_comment st)) EmptyString)
    as [Hblank|Htext]; [by left|].
  destruct isAuthenticated; simpl; [|by left].
  destruct (send (Provider.f_comment st)) as [c|re] eqn:Hsend.
  - right. exists c. split; [done|]. split; [done|]. split; [|done].
    rewrite negb_true_iff, String.eqb_neq. intros Hempty.
    rewrite Hempty in Htext. by destruct Htext.
  - left. simpl. split; [done|]. split; [done|]. by apply orJs_truthy.
Qed.

(** X23. A text that is not empty and made of white space only is never
    sent by the comment form, although the rule of the comment route would
    accept it. *)
Theorem blank_comment_stops_at_the_form (s : string) :
  s <> EmptyString ->
  forallb Provider.isSpace (list_ascii_of_string s) = true ->
  Provider.trim s = EmptyString
  /\ Server.validationErrors [(Some s, "Please provide comment content")] = []
  /\ (forall (C : Type) (isAuthenticated : bool)
             (send send' : string -> C + Client.JsVal)
             (comments : list C) (adding : bool) (err : Client.JsVal),
        Provider.handleAddComment isAuthenticated send
          {| Provider.f_comments := comments; Provider.f_comment := s;
             Provider.f_addingComment := adding; Provider.f_commentError := err |}
        = Provider.handleAddComment isAuthenticated send'
            {| Provider.f_comments := comments; Provider.f_comment := s;
               Provider.f_addingComment := adding; Provider.f_commentError := err |}).
Proof.
  intros Hs Hblank.
  assert (Htrim : Provider.trim s = EmptyString).
  { unfold Provider.trim. by rewrite (trimStart_blank _ Hblank). }
  split; [done|]. split.
  - unfold Server.validationErrors. simpl.
    apply String.eqb_neq in Hs. by rewrite Hs.
  - intros C isAuthenticated send send' comments adding err.
    unfold Provider.handleAddComment. simpl. by rewrite Htrim.
Qed.

Lemma blank_comment_stops_at_the_form_witness :
  Provider.trim "   " = EmptyString
  /\ Server.validationErrors [(Some "   ", "Please provide comment content")] = [].
Proof.
  destruct (blank_comment_stops_at_the_form "   ") as (Ht & Hv & _);
    [discriminate | reflexivity |].
  split; [exact Ht | exact Hv].
Defined.
